(** * The Ink lexer (pkg/ink/lexer.go): a shallow embedding and its properties

    [Tokenize] reads runes from a buffered reader and sends tokens on a
    channel.  The closures of the Go function ([simpleCommit], [commitClear],
    [ensureSeparator], ...) share the variables they capture; here they are
    computations in a state monad over the record [lexer] that holds those
    variables, the reader, the channel contents and the diagnostic log. *)

From Stdlib Require Import ZArith List String Ascii Bool Lia.
From Stdlib Require Import Floats DecimalString.
Import ListNotations.

Set Warnings "-inexact-float".
Local Open Scope Z_scope.
Unset Lia Cache.

(** ** Runes and Go strings *)

(** A rune is a Unicode code point (Go: [int32]). *)
Definition rune : Type := Z.

Definition rn (a : ascii) : rune := Z.of_N (N_of_ascii a).
Arguments rn a%_char.

(** A Go string is a byte sequence holding UTF-8.  Every string the lexer
    builds is a concatenation of runes delivered by the reader, so it is kept
    here as that rune sequence; its bytes are recovered by [EncodeRune]. *)
Definition gostring : Type := list rune.

Definition runes (s : string) : gostring := map rn (list_ascii_of_string s).

Definition MaxRune : rune := 1114111.
Definition RuneError : rune := 65533.
Definition MaxLatin1 : rune := 255.

Definition ValidRune (r : rune) : bool :=
  ((0 <=? r) && (r <? 55296)) || ((57343 <? r) && (r <=? MaxRune)).

(** utf8.EncodeRune: the bytes of [string(r)]. *)
Definition EncodeRune (r : rune) : list Z :=
  if (0 <=? r) && (r <=? 127) then [r]
  else if (0 <=? r) && (r <=? 2047) then
    [Z.lor 192 (Z.shiftr r 6); Z.lor 128 (Z.land r 63)]
  else
    let r := if ValidRune r then r else RuneError in
    if r <=? 65535 then
      [Z.lor 224 (Z.shiftr r 12);
       Z.lor 128 (Z.land (Z.shiftr r 6) 63);
       Z.lor 128 (Z.land r 63)]
    else
      [Z.lor 240 (Z.shiftr r 18);
       Z.lor 128 (Z.land (Z.shiftr r 12) 63);
       Z.lor 128 (Z.land (Z.shiftr r 6) 63);
       Z.lor 128 (Z.land r 63)].

(** [string(char)]: code points that are not valid come out as U+FFFD. *)
Definition string_of_rune (r : rune) : gostring :=
  [if ValidRune r then r else RuneError].

Definition bytes (s : gostring) : list Z := flat_map EncodeRune s.

(** [len(s)], a byte count. *)
Definition len (s : gostring) : Z := Z.of_nat (List.length (bytes s)).

(** [s[0]] of a non-empty string. *)
Definition index0 (s : gostring) : Z := hd 0 (bytes s).

Fixpoint gostring_eqb (a b : gostring) : bool :=
  match a, b with
  | [], [] => true
  | x :: a', y :: b' => (x =? y) && gostring_eqb a' b'
  | _, _ => false
  end.

(** Go's [int] on a 64-bit target: arithmetic wraps around. *)
Definition wrap (z : Z) : Z := (z + 2 ^ 63) mod 2 ^ 64 - 2 ^ 63.

(** [%d] of fmt.Sprintf. *)
Definition itoa (z : Z) : string := NilZero.string_of_int (Z.to_int z).

(** ** What the lexer takes from the Go library

    [strconv.ParseFloat] and the range tables of package [unicode] are not
    part of the program; the development is parametric in them.
    [ParseFloat s] is the pair of the parsed value and, when the parse fails,
    the text of [err.Error()]. *)
Class GoLibrary : Type := {
  ParseFloat : gostring -> float * option string;
  Digit : rune -> bool;
  White_Space : rune -> bool
}.

Section Unicode.
Context {go : GoLibrary}.

(** unicode.IsDigit: Latin-1 is decided directly, the rest by the table. *)
Definition IsDigit (r : rune) : bool :=
  if r <=? MaxLatin1 then (rn "0" <=? r) && (r <=? rn "9")
  else Digit r.

(** unicode.IsSpace, which tests [uint32(r) <= MaxLatin1]. *)
Definition IsSpace (r : rune) : bool :=
  if (0 <=? r) && (r <=? MaxLatin1) then
    (r =? 9) || (r =? 10) || (r =? 11) || (r =? 12) || (r =? 13)
    || (r =? 32) || (r =? 133) || (r =? 160)
  else White_Space r.
End Unicode.

(** ** Tokens *)

Inductive Kind : Type :=
| Separator
| UnaryExpr | BinaryExpr | MatchExpr | MatchClause
| Identifier | EmptyIdentifier
| FunctionCall
| NumberLiteral | StringLiteral | ObjectLiteral | ListLiteral | FunctionLiteral
| TrueLiteral | FalseLiteral
| AccessorOp
| EqualOp | FunctionArrow
| KeyValueSeparator | DefineOp | MatchColon
| CaseArrow | SubtractOp
| NegationOp | AddOp | MultiplyOp | DivideOp | ModulusOp
| GreaterThanOp | LessThanOp
| LogicalAndOp | LogicalOrOp | LogicalXorOp
| LeftParen | RightParen | LeftBracket | RightBracket | LeftBrace | RightBrace.

Record position : Type := mkPos { line : Z; col : Z }.

Record Tok : Type := mkTok {
  kind : Kind;
  str : gostring;
  num : float;
  pos : position
}.

(** [Tok{kind: k, position: p}]: the other fields take their zero values. *)
Definition charTok (k : Kind) (p : position) : Tok := mkTok k [] 0%float p.

(** ** Diagnostics *)

(** Modelled from the spec: the reason codes are declared outside lexer.go;
    section 7 names the one the lexer uses. *)
Inductive ErrReason : Type := ErrSyntax.

Record Err : Type := mkErr { reason : ErrReason; message : string }.

(** What reached the logger.  A debug entry stands for the call
    [LogDebug("lex ->", tok.String())]. *)
Inductive LogEvent : Type :=
| EvDebug (tok : Tok)
| EvErr (r : ErrReason) (msg : string)
| EvSafeErr (r : ErrReason) (msg : string).

(** ** The state of one call of Tokenize *)

(** bufio.Reader over the input: the runes still to be read and the rune the
    last ReadRune delivered, which UnreadRune can push back. *)
Record Reader : Type := mkReader {
  pending : list rune;
  lastRune : option rune
}.

Record lexer : Type := mkLexer {
  buf : gostring;
  strbuf : gostring;
  strbufStartLine : Z;
  strbufStartCol : Z;
  lastKind : Kind;
  lineNo : Z;
  colNo : Z;
  inStringLiteral : bool;
  buffered : Reader;
  tokens : list Tok;
  diag : list LogEvent
}.

Definition set_buf (v : gostring) (s : lexer) : lexer :=
  mkLexer v (strbuf s) (strbufStartLine s) (strbufStartCol s) (lastKind s)
    (lineNo s) (colNo s) (inStringLiteral s) (buffered s) (tokens s) (diag s).
Definition set_strbuf (v : gostring) (s : lexer) : lexer :=
  mkLexer (buf s) v (strbufStartLine s) (strbufStartCol s) (lastKind s)
    (lineNo s) (colNo s) (inStringLiteral s) (buffered s) (tokens s) (diag s).
Definition set_strbufStart (l c : Z) (s : lexer) : lexer :=
  mkLexer (buf s) (strbuf s) l c (lastKind s)
    (lineNo s) (colNo s) (inStringLiteral s) (buffered s) (tokens s) (diag s).
Definition set_lastKind (v : Kind) (s : lexer) : lexer :=
  mkLexer (buf s) (strbuf s) (strbufStartLine s) (strbufStartCol s) v
    (lineNo s) (colNo s) (inStringLiteral s) (buffered s) (tokens s) (diag s).
Definition set_lineNo (v : Z) (s : lexer) : lexer :=
  mkLexer (buf s) (strbuf s) (strbufStartLine s) (strbufStartCol s) (lastKind s)
    v (colNo s) (inStringLiteral s) (buffered s) (tokens s) (diag s).
Definition set_colNo (v : Z) (s : lexer) : lexer :=
  mkLexer (buf s) (strbuf s) (strbufStartLine s) (strbufStartCol s) (lastKind s)
    (lineNo s) v (inStringLiteral s) (buffered s) (tokens s) (diag s).
Definition set_inStringLiteral (v : bool) (s : lexer) : lexer :=
  mkLexer (buf s) (strbuf s) (strbufStartLine s) (strbufStartCol s) (lastKind s)
    (lineNo s) (colNo s) v (buffered s) (tokens s) (diag s).
Definition set_buffered (v : Reader) (s : lexer) : lexer :=
  mkLexer (buf s) (strbuf s) (strbufStartLine s) (strbufStartCol s) (lastKind s)
    (lineNo s) (colNo s) (inStringLiteral s) v (tokens s) (diag s).
Definition set_tokens (v : list Tok) (s : lexer) : lexer :=
  mkLexer (buf s) (strbuf s) (strbufStartLine s) (strbufStartCol s) (lastKind s)
    (lineNo s) (colNo s) (inStringLiteral s) (buffered s) v (diag s).
Definition set_diag (v : list LogEvent) (s : lexer) : lexer :=
  mkLexer (buf s) (strbuf s) (strbufStartLine s) (strbufStartCol s) (lastKind s)
    (lineNo s) (colNo s) (inStringLiteral s) (buffered s) (tokens s) v.

(** ** The monad

    A computation ends normally with a value and a state, or the process has
    been terminated by the fatal log path, or the model's loop bound was too
    small (which [Tokenize_returns] below excludes). *)
Inductive Res (A : Type) : Type :=
| Ok (a : A) (s : lexer)
| Exit (s : lexer)
| OutOfFuel.
Arguments Ok {A} a s.
Arguments Exit {A} s.
Arguments OutOfFuel {A}.

Definition M (A : Type) : Type := lexer -> Res A.

Definition ret {A} (a : A) : M A := fun s => Ok a s.

Definition bind {A B} (m : M A) (k : A -> M B) : M B :=
  fun s =>
    match m s with
    | Ok a s' => k a s'
    | Exit s' => Exit s'
    | OutOfFuel => OutOfFuel
    end.

Definition get {A} (f : lexer -> A) : M A := fun s => Ok (f s) s.
Definition modify (f : lexer -> lexer) : M unit := fun s => Ok tt (f s).

Notation "x <- m ;; k" := (bind m (fun x => k))
  (at level 61, m at next level, right associativity).
Notation "m ;; k" := (bind m (fun _ => k))
  (at level 61, right associativity).

(** *** The reader *)

Definition ReadRune : M (option rune) :=
  fun s =>
    match pending (buffered s) with
    | [] => Ok None (set_buffered (mkReader [] None) s)
    | c :: rest => Ok (Some c) (set_buffered (mkReader rest (Some c)) s)
    end.

Definition UnreadRune : M unit :=
  fun s =>
    match lastRune (buffered s) with
    | Some c => Ok tt (set_buffered (mkReader (c :: pending (buffered s)) None) s)
    | None => Ok tt s
    end.

(** [for nextChar != stop { nextChar, _, err = ReadRune(); if err != nil { break } }]
    entered with [nextChar != stop]. *)
Fixpoint readThrough (stop : rune) (l : list rune) : Reader :=
  match l with
  | [] => mkReader [] None
  | c :: rest => if c =? stop then mkReader rest (Some c) else readThrough stop rest
  end.

(** *** The logger *)

(** Modelled from the spec: LogErr, LogSafeErr and LogDebug are declared
    outside lexer.go.  Section 6: the fatal operation reports and terminates
    the process, the safe one reports and returns. *)
Definition LogErr (r : ErrReason) (msg : string) : M unit :=
  fun s => Exit (set_diag (diag s ++ [EvErr r msg]) s).
Definition LogSafeErr (r : ErrReason) (msg : string) : M unit :=
  modify (fun s => set_diag (diag s ++ [EvSafeErr r msg]) s).
Definition LogDebug (tok : Tok) : M unit :=
  modify (fun s => set_diag (diag s ++ [EvDebug tok]) s).

(** ** Tokenize *)

Section Tokenize.
Context {go : GoLibrary}.
Variables fatalError debugLexer : bool.

Definition simpleCommit (tok : Tok) : M unit :=
  modify (set_lastKind (kind tok)) ;;
  (if debugLexer then LogDebug tok else ret tt) ;;
  modify (fun s => set_tokens (tokens s ++ [tok]) s).

Definition simpleCommitChar (k : Kind) : M unit :=
  l <- get lineNo ;; c <- get colNo ;;
  simpleCommit (charTok k (mkPos l c)).

Definition numberError (l c : Z) (perr : string) : string :=
  ("parsing error in number at " ++ itoa l ++ ":" ++ itoa c ++ ", " ++ perr)%string.

Definition commitClear : M unit :=
  cbuf <- get buf ;;
  match cbuf with
  | [] => ret tt
  | _ :: _ =>
    modify (set_buf []) ;;
    if gostring_eqb cbuf (runes "true") then simpleCommitChar TrueLiteral
    else if gostring_eqb cbuf (runes "false") then simpleCommitChar FalseLiteral
    else if IsDigit (index0 cbuf) then
      let (f, err) := ParseFloat cbuf in
      match err with
      | Some perr =>
        l <- get lineNo ;; c <- get colNo ;;
        let e := mkErr ErrSyntax (numberError l c perr) in
        if fatalError then LogErr (reason e) (message e)
        else LogSafeErr (reason e) (message e)
      | None => ret tt
      end ;;
      l <- get lineNo ;; c <- get colNo ;;
      simpleCommit (mkTok NumberLiteral [] f (mkPos l (wrap (c - len cbuf))))
    else
      l <- get lineNo ;; c <- get colNo ;;
      simpleCommit (mkTok Identifier cbuf 0%float (mkPos l (wrap (c - len cbuf))))
  end.

Definition commit (tok : Tok) : M unit :=
  commitClear ;; simpleCommit tok.

Definition commitChar (k : Kind) : M unit :=
  l <- get lineNo ;; c <- get colNo ;;
  commit (charTok k (mkPos l c)).

Definition ensureSeparator : M unit :=
  commitClear ;;
  k <- get lastKind ;;
  match k with
  | Separator | LeftParen | LeftBracket | LeftBrace
  | AddOp | SubtractOp | MultiplyOp | DivideOp | ModulusOp | NegationOp
  | GreaterThanOp | LessThanOp | EqualOp | DefineOp | AccessorOp
  | KeyValueSeparator | FunctionArrow | MatchColon | CaseArrow => ret tt
  | _ => commitChar Separator
  end.

Definition incLineNo : M unit := modify (fun s => set_lineNo (wrap (lineNo s + 1)) s).
Definition incColNo : M unit := modify (fun s => set_colNo (wrap (colNo s + 1)) s).
Definition resetColNo : M unit := modify (set_colNo 0).
Definition appendStrbuf (c : rune) : M unit :=
  modify (fun s => set_strbuf (strbuf s ++ string_of_rune c) s).
Definition appendBuf (c : rune) : M unit :=
  modify (fun s => set_buf (buf s ++ string_of_rune c) s).

(** Lines 209-221: the ignored first line of a script. *)
Definition skipShebang : M unit :=
  peeked <- get (fun s => firstn 2 (pending (buffered s))) ;;
  if gostring_eqb peeked (runes "#!") then
    modify (fun s => set_buffered (readThrough (rn "010") (pending (buffered s))) s) ;;
    incLineNo
  else ret tt.

(** The inner loop of a block comment, lines 280-291, entered with
    [nextChar] not a backtick. *)
Fixpoint blockComment (l : list rune) : M unit :=
  match l with
  | [] => modify (set_buffered (mkReader [] None))
  | c :: rest =>
    modify (set_buffered (mkReader rest (Some c))) ;;
    (if c =? rn "010" then incLineNo ;; resetColNo else ret tt) ;;
    incColNo ;;
    if c =? rn "`" then ret tt else blockComment rest
  end.

(** The body of the [switch] of the main loop, lines 229-407.  A [break]
    inside it leaves the switch, not the loop. *)
Definition dispatch (char : rune) : M unit :=
  inString <- get inStringLiteral ;;
  if char =? rn "'" then
    (if inString then
       sb <- get strbuf ;; l <- get strbufStartLine ;; c <- get strbufStartCol ;;
       commit (mkTok StringLiteral sb 0%float (mkPos l c))
     else
       modify (set_strbuf []) ;;
       l <- get lineNo ;; c <- get colNo ;;
       modify (set_strbufStart l c)) ;;
    modify (set_inStringLiteral (negb inString))
  else if inString then
    if char =? rn "010" then
      incLineNo ;; resetColNo ;; appendStrbuf char
    else if char =? rn "\" then
      r <- ReadRune ;;
      match r with
      | None => ret tt
      | Some c => appendStrbuf c ;; incColNo
      end
    else appendStrbuf char
  else if char =? rn "`" then
    r <- ReadRune ;;
    match r with
    | None => ret tt
    | Some nextChar =>
      if nextChar =? rn "`" then
        modify (fun s => set_buffered (readThrough (rn "010") (pending (buffered s))) s) ;;
        ensureSeparator ;;
        incLineNo ;; resetColNo
      else
        rest <- get (fun s => pending (buffered s)) ;;
        blockComment rest
    end
  else if char =? rn "010" then
    ensureSeparator ;; incLineNo ;; resetColNo
  else if IsSpace char then commitClear
  else if char =? rn "_" then commitChar EmptyIdentifier
  else if char =? rn "~" then commitChar NegationOp
  else if char =? rn "+" then commitChar AddOp
  else if char =? rn "*" then commitChar MultiplyOp
  else if char =? rn "/" then commitChar DivideOp
  else if char =? rn "%" then commitChar ModulusOp
  else if char =? rn "&" then commitChar LogicalAndOp
  else if char =? rn "|" then commitChar LogicalOrOp
  else if char =? rn "^" then commitChar LogicalXorOp
  else if char =? rn "<" then commitChar LessThanOp
  else if char =? rn ">" then commitChar GreaterThanOp
  else if char =? rn "," then commitChar Separator
  else if char =? rn "." then
    b <- get buf ;;
    if existsb (fun d => negb (IsDigit d)) b then commitChar AccessorOp
    else
      match b with
      | [] => commitChar AccessorOp
      | _ :: _ => modify (fun s => set_buf (buf s ++ runes ".") s)
      end
  else if char =? rn ":" then
    r <- ReadRune ;;
    match r with
    | None => ret tt
    | Some nextChar =>
      incColNo ;;
      if nextChar =? rn "=" then commitChar DefineOp
      else if nextChar =? rn ":" then commitChar MatchColon
      else ensureSeparator ;; commitChar KeyValueSeparator ;; UnreadRune
    end
  else if char =? rn "=" then
    r <- ReadRune ;;
    match r with
    | None => ret tt
    | Some nextChar =>
      incColNo ;;
      if nextChar =? rn ">" then commitChar FunctionArrow
      else commitChar EqualOp ;; UnreadRune
    end
  else if char =? rn "-" then
    r <- ReadRune ;;
    match r with
    | None => ret tt
    | Some nextChar =>
      incColNo ;;
      if nextChar =? rn ">" then commitChar CaseArrow
      else commitChar SubtractOp ;; UnreadRune
    end
  else if char =? rn "(" then commitChar LeftParen
  else if char =? rn ")" then ensureSeparator ;; commitChar RightParen
  else if char =? rn "[" then commitChar LeftBracket
  else if char =? rn "]" then ensureSeparator ;; commitChar RightBracket
  else if char =? rn "{" then commitChar LeftBrace
  else if char =? rn "}" then ensureSeparator ;; commitChar RightBrace
  else appendBuf char.

(** The main loop, lines 223-409.  Every round reads at least one rune, so
    one more round than there are runes is enough. *)
Fixpoint mainLoop (fuel : nat) : M unit :=
  match fuel with
  | O => fun _ => OutOfFuel
  | S fuel' =>
    r <- ReadRune ;;
    match r with
    | None => ret tt
    | Some char => dispatch char ;; incColNo ;; mainLoop fuel'
    end
  end.

Definition initial (unbuffered : list rune) : lexer :=
  mkLexer [] [] 0 0 Separator 1 1 false (mkReader unbuffered None) [] [].

Definition Tokenize (unbuffered : list rune) : Res unit :=
  (skipShebang ;; mainLoop (S (List.length unbuffered)) ;; ensureSeparator)
    (initial unbuffered).
End Tokenize.

(** The tokens sent on the channel by the time the call ended. *)
Definition emitted (r : Res unit) : option (list Tok) :=
  match r with
  | Ok _ s => Some (tokens s)
  | Exit s => Some (tokens s)
  | OutOfFuel => None
  end.

(** The log by the time the call ended. *)
Definition diagnostics (r : Res unit) : option (list LogEvent) :=
  match r with
  | Ok _ s => Some (diag s)
  | Exit s => Some (diag s)
  | OutOfFuel => None
  end.

(** ** A library instance for running the lexer

    [ParseFloat] on the plain decimal literals [digits] and [digits.digits]
    with a mantissa below 2^53 and at most 18 fractional digits: both the
    mantissa and the power of ten are then exact binary64 values and one
    IEEE division rounds their quotient correctly, which is the value strconv
    returns.  Every other text is reported as a syntax error.  The tables
    above Latin-1 are empty.  The theorems below hold for every library; this
    one serves to run the lexer on Latin-1 inputs. *)
Fixpoint scanDigits (l : list rune) (m : Z) (n : nat) : Z * nat * list rune :=
  match l with
  | c :: rest =>
    if (rn "0" <=? c) && (c <=? rn "9")
    then scanDigits rest (10 * m + (c - rn "0")) (S n)
    else (m, n, l)
  | [] => (m, n, [])
  end.

Definition ratio (m : Z) (k : nat) : float * option string :=
  if (m <? 2 ^ 53) && (Nat.leb k 18) then
    (PrimFloat.div (PrimFloat.of_uint63 (Uint63.of_Z m))
                   (PrimFloat.of_uint63 (Uint63.of_Z (10 ^ Z.of_nat k))), None)
  else (0%float, Some "strconv.ParseFloat: invalid syntax"%string).

Definition decimalParseFloat (s : gostring) : float * option string :=
  let syntax := (0%float, Some "strconv.ParseFloat: invalid syntax"%string) in
  let '(m, n, rest) := scanDigits s 0 0 in
  match n, rest with
  | S _, [] => ratio m 0
  | S _, dot :: frac =>
    if dot =? rn "." then
      let '(m', k, rest') := scanDigits frac m 0 in
      match rest' with
      | [] => ratio m' k
      | _ :: _ => syntax
      end
    else syntax
  | O, _ => syntax
  end.

#[local] Instance decimalLibrary : GoLibrary := {
  ParseFloat := decimalParseFloat;
  Digit := fun _ => false;
  White_Space := fun _ => false
}.


(** ** Vocabulary of the statements *)

(** A token without its position. *)
Definition payload (t : Tok) : Kind * gostring * float := (kind t, str t, num t).

Definition cursor (s : lexer) : position := mkPos (lineNo s) (colNo s).

(** The kinds after which [ensureSeparator] sends nothing. *)
Definition quiet (k : Kind) : bool :=
  match k with
  | Separator | LeftParen | LeftBracket | LeftBrace
  | AddOp | SubtractOp | MultiplyOp | DivideOp | ModulusOp | NegationOp
  | GreaterThanOp | LessThanOp | EqualOp | DefineOp | AccessorOp
  | KeyValueSeparator | FunctionArrow | MatchColon | CaseArrow => true
  | _ => false
  end.

Definition isSeparator (k : Kind) : bool :=
  match k with Separator => true | _ => false end.

(** The kind of the last token of a stream that started after kind [k]. *)
Definition lastKindAfter (k : Kind) (toks : list Tok) : Kind :=
  last (map kind toks) k.

(** Number of places in [toks] where a Separator directly follows a
    Separator, the token before [toks] being of kind [k]. *)
Fixpoint pairsAfter (k : Kind) (toks : list Tok) : nat :=
  match toks with
  | [] => 0%nat
  | t :: rest =>
    ((if isSeparator k && isSeparator (kind t) then 1 else 0)
     + pairsAfter (kind t) rest)%nat
  end.

(** Number of places where a Separator directly follows a Separator. *)
Definition sepPairs (toks : list Tok) : nat :=
  match toks with
  | [] => 0%nat
  | t :: rest => pairsAfter (kind t) rest
  end.

Definition commas (l : list rune) : nat :=
  List.length (filter (fun c => c =? rn ",") l).

(** Positions in reading order. *)
Definition posLe (p q : position) : Prop :=
  line p < line q \/ (line p = line q /\ col p <= col q).


Fixpoint nondecreasing (l : list position) : Prop :=
  match l with
  | [] => True
  | p :: rest =>
    match rest with [] => True | q :: _ => posLe p q end /\ nondecreasing rest
  end.

(** The kinds whose tokens are stamped with the position counters as they
    stand when the token is sent: all but identifiers, numbers and strings. *)
Definition stamped (k : Kind) : bool :=
  match k with
  | Identifier | NumberLiteral | StringLiteral => false
  | _ => true
  end.

Definition stamps (toks : list Tok) : list position :=
  map pos (filter (fun t => stamped (kind t)) toks).



(** [a] is what remains of [b] after some prefix. *)
Definition suffix {A} (a b : list A) : Prop := exists k, b = k ++ a.

(** Weakest precondition: [m] started in [s] does not run out of fuel, ends
    in a state satisfying [Q] when it returns and [X] when the process was
    terminated. *)
Definition wp {A} (m : M A) (Q : A -> lexer -> Prop) (X : lexer -> Prop)
  (s : lexer) : Prop :=
  match m s with
  | Ok a s' => Q a s'
  | Exit s' => X s'
  | OutOfFuel => False
  end.

(** The variables no commit function assigns. *)
Definition frame (s s' : lexer) : Prop :=
  strbuf s' = strbuf s /\ strbufStartLine s' = strbufStartLine s /\
  strbufStartCol s' = strbufStartCol s /\ lineNo s' = lineNo s /\
  colNo s' = colNo s /\ inStringLiteral s' = inStringLiteral s /\
  buffered s' = buffered s.

Section Summary.
Context {go : GoLibrary}.
Variables fatalError debugLexer : bool.

(** The token [commitClear] makes of a non-empty [buf]. *)
Definition bufTok (s : lexer) : Tok :=
  let cbuf := buf s in
  if gostring_eqb cbuf (runes "true") then charTok TrueLiteral (cursor s)
  else if gostring_eqb cbuf (runes "false") then charTok FalseLiteral (cursor s)
  else if IsDigit (index0 cbuf) then
    mkTok NumberLiteral [] (fst (ParseFloat cbuf))
      (mkPos (lineNo s) (wrap (colNo s - len cbuf)))
  else
    mkTok Identifier cbuf 0%float (mkPos (lineNo s) (wrap (colNo s - len cbuf))).

(** The parse failure [commitClear] reports for [buf], if any. *)
Definition bufErr (s : lexer) : option string :=
  let cbuf := buf s in
  if gostring_eqb cbuf (runes "true") then None
  else if gostring_eqb cbuf (runes "false") then None
  else if IsDigit (index0 cbuf) then
    option_map (numberError (lineNo s) (colNo s)) (snd (ParseFloat cbuf))
  else None.

Definition flushed (s : lexer) : list Tok :=
  match buf s with [] => [] | _ :: _ => [bufTok s] end.

(** What [ensureSeparator] adds after the flushed token. *)
Definition synthesized (s : lexer) : list Tok :=
  if quiet (lastKindAfter (lastKind s) (flushed s)) then []
  else [charTok Separator (cursor s)].

(** An entry of the log that the lexer can have written: a debug line, or
    the report of a number that did not parse, on the log path that
    [fatalError] selects. *)
Definition lexerEvent (ev : LogEvent) : Prop :=
  match ev with
  | EvDebug _ => debugLexer = true
  | EvErr r msg =>
    fatalError = true /\ r = ErrSyntax /\
    exists cbuf l c perr, IsDigit (index0 cbuf) = true /\
      snd (ParseFloat cbuf) = Some perr /\ msg = numberError l c perr
  | EvSafeErr r msg =>
    fatalError = false /\ r = ErrSyntax /\
    exists cbuf l c perr, IsDigit (index0 cbuf) = true /\
      snd (ParseFloat cbuf) = Some perr /\ msg = numberError l c perr
  end.

(** [s'] is [s] after sending [toks]. *)
Definition sends (s s' : lexer) (toks : list Tok) : Prop :=
  frame s s' /\
  tokens s' = tokens s ++ toks /\
  lastKind s' = lastKindAfter (lastKind s) toks /\
  exists evs, diag s' = diag s ++ evs /\ Forall lexerEvent evs.

End Summary.

Ltac lexer_simpl :=
  cbn [buf strbuf strbufStartLine strbufStartCol lastKind lineNo colNo
       inStringLiteral buffered tokens diag pending lastRune
       set_buf set_strbuf set_strbufStart set_lastKind set_lineNo set_colNo
       set_inStringLiteral set_buffered set_tokens set_diag cursor
       kind str num pos line col charTok] in *.

(** ** Rules of the weakest precondition *)

Lemma wp_bind {A B} (m : M A) (k : A -> M B) Q X s :
  wp m (fun a s' => wp (k a) Q X s') X s -> wp (bind m k) Q X s.
Proof.
  unfold wp, bind. destruct (m s); auto.
Qed.

Lemma wp_conseq {A} (m : M A) (Q Q' : A -> lexer -> Prop) (X X' : lexer -> Prop) s :
  wp m Q X s ->
  (forall a s', Q a s' -> Q' a s') ->
  (forall s', X s' -> X' s') ->
  wp m Q' X' s.
Proof.
  unfold wp. destruct (m s); auto.
Qed.

Lemma wp_call {A B} (m : M A) (k : A -> M B) (R : A -> lexer -> Prop)
  (E : lexer -> Prop) Q X s :
  wp m R E s ->
  (forall a s', R a s' -> wp (k a) Q X s') ->
  (forall s', E s' -> X s') ->
  wp (bind m k) Q X s.
Proof.
  intros H HQ HX. apply wp_bind. eapply wp_conseq; eauto.
Qed.

Lemma wp_bind_assoc {A B C} (m : M A) (k1 : A -> M B) (k2 : B -> M C) Q X s :
  wp (bind m (fun a => bind (k1 a) k2)) Q X s -> wp (bind (bind m k1) k2) Q X s.
Proof.
  unfold wp, bind. destruct (m s); auto.
Qed.

Lemma wp_bind_assoc_rev {A B C} (m : M A) (k1 : A -> M B) (k2 : B -> M C) Q X s :
  wp (bind (bind m k1) k2) Q X s -> wp (bind m (fun a => bind (k1 a) k2)) Q X s.
Proof.
  unfold wp, bind. destruct (m s); auto.
Qed.

Lemma wp_get {A B} (f : lexer -> A) (k : A -> M B) Q X s :
  wp (k (f s)) Q X s -> wp (bind (get f) k) Q X s.
Proof. exact (fun H => H). Qed.

Lemma wp_modify {B} (f : lexer -> lexer) (k : unit -> M B) Q X s :
  wp (k tt) Q X (f s) -> wp (bind (modify f) k) Q X s.
Proof. exact (fun H => H). Qed.

Lemma wp_ret_bind {A B} (a : A) (k : A -> M B) Q X s :
  wp (k a) Q X s -> wp (bind (ret a) k) Q X s.
Proof. exact (fun H => H). Qed.

Lemma wp_ret {A} (a : A) (Q : A -> lexer -> Prop) X s :
  Q a s -> wp (ret a) Q X s.
Proof. exact (fun H => H). Qed.

Lemma wp_modify_end (f : lexer -> lexer) (Q : unit -> lexer -> Prop) X s :
  Q tt (f s) -> wp (modify f) Q X s.
Proof. exact (fun H => H). Qed.

Lemma wp_if {A} (b : bool) (m1 m2 : M A) Q X s :
  (b = true -> wp m1 Q X s) -> (b = false -> wp m2 Q X s) ->
  wp (if b then m1 else m2) Q X s.
Proof. destruct b; auto. Qed.

Lemma wp_if_bind {A B} (b : bool) (m1 m2 : M A) (k : A -> M B) Q X s :
  (b = true -> wp (bind m1 k) Q X s) -> (b = false -> wp (bind m2 k) Q X s) ->
  wp (bind (if b then m1 else m2) k) Q X s.
Proof. destruct b; auto. Qed.

Ltac wp_pure :=
  repeat (lazymatch goal with
          | |- wp (bind (bind _ _) _) _ _ _ => apply wp_bind_assoc
          | |- wp (bind (get _) _) _ _ _ => apply wp_get
          | |- wp (bind (modify _) _) _ _ _ => apply wp_modify
          | |- wp (bind (ret _) _) _ _ _ => apply wp_ret_bind
          | |- wp (ret _) _ _ _ => apply wp_ret
          | |- wp (modify _) _ _ _ => apply wp_modify_end
          end; cbv beta).

(** ** What each commit function sends *)

Lemma last_nonempty {A} (x : A) (l : list A) (d d' : A) :
  last (x :: l) d = last (x :: l) d'.
Proof.
  revert x. induction l as [|y l IH]; intros x; [reflexivity|].
  change (last (y :: l) d = last (y :: l) d'). apply IH.
Qed.

Lemma last_app_default {A} (a b : list A) (d : A) :
  last (a ++ b) d = last b (last a d).
Proof.
  revert d. induction a as [|x a IH]; intros d; [reflexivity|].
  destruct a as [|y a].
  - destruct b as [|z b]; [reflexivity|].
    change (last (z :: b) d = last (z :: b) x). apply last_nonempty.
  - change (last ((y :: a) ++ b) d = last b (last (y :: a) d)). apply IH.
Qed.

Lemma lastKindAfter_app k a b :
  lastKindAfter k (a ++ b) = lastKindAfter (lastKindAfter k a) b.
Proof.
  unfold lastKindAfter. rewrite map_app. apply last_app_default.
Qed.

Lemma frame_refl s : frame s s.
Proof. unfold frame. tauto. Qed.

Lemma frame_trans s1 s2 s3 : frame s1 s2 -> frame s2 s3 -> frame s1 s3.
Proof. unfold frame. intuition congruence. Qed.

Section Commit.
Context {go : GoLibrary}.
Variables fatalError debugLexer : bool.

Local Abbreviation Sends := (sends fatalError debugLexer).
Local Abbreviation Event := (lexerEvent fatalError debugLexer).

Lemma sends_refl s : Sends s s [].
Proof.
  unfold sends. split; [apply frame_refl|].
  rewrite app_nil_r. repeat split.
  exists []. rewrite app_nil_r. auto.
Qed.

Lemma sends_trans s1 s2 s3 a b :
  Sends s1 s2 a -> Sends s2 s3 b -> Sends s1 s3 (a ++ b).
Proof.
  intros (F1 & T1 & L1 & e1 & D1 & E1) (F2 & T2 & L2 & e2 & D2 & E2).
  split; [eapply frame_trans; eauto|].
  split; [rewrite T2, T1, app_assoc; reflexivity|].
  split; [rewrite L2, L1, lastKindAfter_app; reflexivity|].
  exists (e1 ++ e2). split.
  - rewrite D2, D1, app_assoc. reflexivity.
  - apply Forall_app. auto.
Qed.

Lemma sends_frame s s' toks : Sends s s' toks -> frame s s'.
Proof. intros H. apply H. Qed.

Lemma simpleCommit_spec tok s :
  wp (simpleCommit debugLexer tok)
     (fun _ s' => Sends s s' [tok] /\ buf s' = buf s) (fun _ => False) s.
Proof.
  unfold simpleCommit, wp, bind, modify, LogDebug, ret, sends, frame.
  destruct debugLexer; lexer_simpl; repeat split.
  - exists [EvDebug tok]. split; [reflexivity|]. constructor; [reflexivity|constructor].
  - exists []. rewrite app_nil_r. split; [reflexivity|constructor].
Qed.

Lemma logged_sends s ev :
  Event ev -> Sends s (set_diag (diag s ++ [ev]) s) [].
Proof.
  intros H. unfold sends, frame. lexer_simpl. rewrite app_nil_r.
  repeat split. exists [ev]. split; [reflexivity|]. constructor; [exact H|constructor].
Qed.

Lemma set_buf_sends v s : Sends s (set_buf v s) [].
Proof.
  unfold sends, frame. lexer_simpl. rewrite app_nil_r.
  repeat split. exists []. rewrite app_nil_r. split; [reflexivity|constructor].
Qed.

Lemma commitClear_spec s :
  wp (commitClear fatalError debugLexer)
     (fun _ s' => Sends s s' (flushed s) /\ buf s' = [])
     (fun s' => Sends s s' [] /\ buf s' = [] /\ fatalError = true /\ buf s <> []) s.
Proof.
  unfold commitClear. apply wp_get.
  unfold flushed, bufTok.
  destruct (buf s) as [|c0 cb] eqn:Hb.
  - apply wp_ret. split; [apply sends_refl | exact Hb].
  - set (cbuf := c0 :: cb) in *.
    apply wp_modify.
    assert (Hs0 : Sends s (set_buf [] s) []) by apply set_buf_sends.
    assert (Hend : forall tok,
      wp (simpleCommit debugLexer tok)
         (fun _ s' => Sends s s' [tok] /\ buf s' = [])
         (fun s' => Sends s s' [] /\ buf s' = [] /\ fatalError = true /\ cbuf <> [])
         (set_buf [] s)).
    { intros tok. eapply wp_conseq; [apply simpleCommit_spec| |intros ? []].
      intros _ s' [H1 H2]. lexer_simpl. split; [|exact H2].
      apply (sends_trans _ _ _ [] _ Hs0 H1). }
    destruct (gostring_eqb cbuf (runes "true"));
      [unfold simpleCommitChar; wp_pure; apply Hend|].
    destruct (gostring_eqb cbuf (runes "false"));
      [unfold simpleCommitChar; wp_pure; apply Hend|].
    destruct (IsDigit (index0 cbuf)) eqn:Hd; [|wp_pure; apply Hend].
    destruct (ParseFloat cbuf) as [f [perr|]] eqn:Hp; [|wp_pure; apply Hend].
    assert (Hev : forall st, Event
      ((if fatalError then EvErr else EvSafeErr) ErrSyntax
         (numberError (lineNo st) (colNo st) perr))).
    { intros st. destruct fatalError; cbn; repeat split; auto;
        exists cbuf, (lineNo st), (colNo st), perr; rewrite Hp; auto. }
    wp_pure. lexer_simpl. apply wp_if_bind; intros Hf.
    + apply wp_bind. unfold wp at 1, LogErr. lexer_simpl.
      split; [|split; [reflexivity|split; [exact Hf|discriminate]]].
      apply (sends_trans _ _ _ [] [] Hs0).
      apply (logged_sends (set_buf [] s)). generalize (Hev s). rewrite Hf. auto.
    + unfold LogSafeErr. wp_pure.
      eapply wp_conseq; [apply simpleCommit_spec| |intros ? []].
      intros _ s' [H1 H2]. lexer_simpl. split; [|exact H2].
      apply (sends_trans _ _ _ [] _ Hs0).
      eapply (sends_trans _ _ _ [] _); [|exact H1].
      apply (logged_sends (set_buf [] s)). generalize (Hev s). rewrite Hf. auto.
Qed.

Lemma commit_spec tok s :
  wp (commit fatalError debugLexer tok)
     (fun _ s' => Sends s s' (flushed s ++ [tok]) /\ buf s' = [])
     (fun s' => Sends s s' [] /\ buf s' = [] /\ fatalError = true /\ buf s <> []) s.
Proof.
  unfold commit.
  eapply wp_call; [apply commitClear_spec| |auto].
  intros _ s1 [H1 B1].
  eapply wp_conseq; [apply simpleCommit_spec| |intros ? []].
  intros _ s2 [H2 B2]. split; [|congruence].
  eapply sends_trans; eauto.
Qed.

Lemma commitChar_spec k s :
  wp (commitChar fatalError debugLexer k)
     (fun _ s' => Sends s s' (flushed s ++ [charTok k (cursor s)]) /\ buf s' = [])
     (fun s' => Sends s s' [] /\ buf s' = [] /\ fatalError = true /\ buf s <> []) s.
Proof.
  unfold commitChar. wp_pure. apply commit_spec.
Qed.

Lemma flushed_empty s : buf s = [] -> flushed s = [].
Proof. unfold flushed. intros ->. reflexivity. Qed.

Lemma frame_cursor s s' : frame s s' -> cursor s' = cursor s.
Proof. unfold frame, cursor. intros (_ & _ & _ & -> & -> & _). reflexivity. Qed.

Lemma ensureSeparator_spec s :
  wp (ensureSeparator fatalError debugLexer)
     (fun _ s' => Sends s s' (flushed s ++ synthesized s) /\ buf s' = [])
     (fun s' => Sends s s' [] /\ buf s' = [] /\ fatalError = true /\ buf s <> []) s.
Proof.
  unfold ensureSeparator.
  eapply wp_call; [apply commitClear_spec| |auto].
  intros _ s1 [H1 B1]. apply wp_get.
  assert (HL : lastKind s1 = lastKindAfter (lastKind s) (flushed s)) by apply H1.
  assert (Hq : wp (ret tt)
     (fun _ s' => Sends s s' (flushed s ++ []) /\ buf s' = [])
     (fun s' => Sends s s' [] /\ buf s' = [] /\ fatalError = true /\ buf s <> []) s1).
  { apply wp_ret. rewrite app_nil_r. auto. }
  assert (Hc : wp (commitChar fatalError debugLexer Separator)
     (fun _ s' => Sends s s' (flushed s ++ [charTok Separator (cursor s)]) /\ buf s' = [])
     (fun s' => Sends s s' [] /\ buf s' = [] /\ fatalError = true /\ buf s <> []) s1).
  { eapply wp_conseq; [apply commitChar_spec| |].
    - intros _ s2 [H2 B2]. split; [|exact B2].
      rewrite (flushed_empty _ B1) in H2. cbn [app] in H2.
      rewrite (frame_cursor _ _ (sends_frame _ _ _ H1)) in H2.
      eapply sends_trans; eauto.
    - intros s2 (_ & _ & _ & F). contradiction. }
  destruct (lastKind s1); cbv iota; unfold synthesized; rewrite <- HL;
    first [exact Hq | exact Hc].
Qed.

End Commit.

(** ** The reader *)

Lemma suffix_refl {A} (l : list A) : suffix l l.
Proof. exists []. reflexivity. Qed.

Lemma suffix_cons {A} (c : A) (a b : list A) : suffix a b -> suffix a (c :: b).
Proof. intros [k ->]. exists (c :: k). reflexivity. Qed.

Lemma suffix_nil {A} (l : list A) : suffix [] l.
Proof. exists l. rewrite app_nil_r. reflexivity. Qed.

Lemma suffix_trans {A} (a b c : list A) : suffix a b -> suffix b c -> suffix a c.
Proof. intros [k ->] [k' ->]. exists (k' ++ k). rewrite app_assoc. reflexivity. Qed.

Lemma suffix_length {A} (a b : list A) :
  suffix a b -> (List.length a <= List.length b)%nat.
Proof. intros [k ->]. rewrite length_app. lia. Qed.

Lemma readThrough_suffix stop l : suffix (pending (readThrough stop l)) l.
Proof.
  induction l as [|c l IH]; cbn.
  - apply suffix_refl.
  - destruct (c =? stop); cbn.
    + apply suffix_cons, suffix_refl.
    + apply suffix_cons, IH.
Qed.

Lemma ReadRune_spec s :
  wp ReadRune
     (fun r s' =>
        match r with
        | None => pending (buffered s) = [] /\ s' = set_buffered (mkReader [] None) s
        | Some c => exists rest, pending (buffered s) = c :: rest /\
                      s' = set_buffered (mkReader rest (Some c)) s
        end)
     (fun _ => False) s.
Proof.
  unfold wp, ReadRune. destruct (pending (buffered s)) as [|c rest]; eauto.
Qed.

Lemma UnreadRune_spec s :
  wp UnreadRune
     (fun _ s' =>
        s' = match lastRune (buffered s) with
             | Some c => set_buffered (mkReader (c :: pending (buffered s)) None) s
             | None => s
             end)
     (fun _ => False) s.
Proof.
  unfold wp, UnreadRune. destruct (lastRune (buffered s)); reflexivity.
Qed.

(** Everything but the position counters and the reader. *)
Definition unchanged (s s' : lexer) : Prop :=
  buf s' = buf s /\ strbuf s' = strbuf s /\
  strbufStartLine s' = strbufStartLine s /\ strbufStartCol s' = strbufStartCol s /\
  lastKind s' = lastKind s /\ inStringLiteral s' = inStringLiteral s /\
  tokens s' = tokens s /\ diag s' = diag s.

Lemma blockComment_spec l s :
  wp (blockComment l)
     (fun _ s' => unchanged s s' /\ suffix (pending (buffered s')) l)
     (fun _ => False) s.
Proof.
  revert s. induction l as [|c l IH]; intros s; cbn [blockComment].
  - wp_pure. unfold unchanged. lexer_simpl. repeat split. apply suffix_refl.
  - unfold incLineNo, incColNo, resetColNo. wp_pure.
    apply wp_if_bind; intros _; wp_pure;
      (apply wp_if; intros _;
       [ wp_pure; unfold unchanged; lexer_simpl; repeat split;
         apply suffix_cons, suffix_refl
       | eapply wp_conseq; [apply IH| |auto];
         intros _ s' [U S]; unfold unchanged in *; lexer_simpl;
         split; [tauto | apply suffix_cons, S] ]).
Qed.

(** ** Walking through the dispatcher *)

Ltac wp_spec_of m :=
  lazymatch m with
  | commitClear _ _ => apply commitClear_spec
  | commit _ _ _ => apply commit_spec
  | commitChar _ _ _ => apply commitChar_spec
  | ensureSeparator _ _ => apply ensureSeparator_spec
  | ReadRune => apply ReadRune_spec
  | UnreadRune => apply UnreadRune_spec
  | blockComment _ => apply blockComment_spec
  end.

Ltac wp_clean :=
  cbv beta in *;
  repeat match goal with
         | H : exists _, _ |- _ => destruct H
         | H : _ /\ _ |- _ => destruct H
         | H : False |- _ => destruct H
         | H : ?x = _ |- _ =>
           is_var x; lazymatch type of x with lexer => subst x end
         end.

(** Turn what is known of the later states into equations on their fields
    and express everything by the fields of the first state. *)
Ltac sends_open :=
  repeat match goal with
         | H : sends _ _ _ _ _ |- _ =>
           destruct H as ((? & ? & ? & ? & ? & ? & ?) & ? & ? & (? & ? & ?))
         | H : unchanged _ _ |- _ =>
           destruct H as (? & ? & ? & ? & ? & ? & ? & ?)
         end.

Ltac rew_fields :=
  repeat match goal with
         | H : ?f ?x = _ |- _ =>
           is_var x; lazymatch type of x with lexer => idtac end;
           rewrite H in *
         | H : pending (buffered ?x) = _ |- _ => is_var x; rewrite H in *
         end.

Ltac leaf := sends_open; lexer_simpl; rew_fields; lexer_simpl.

Ltac wp_walk :=
  repeat first
    [ progress wp_pure
    | lazymatch goal with
      | |- wp (match ?r with Some _ => _ | None => _ end) _ _ _ =>
        destruct r; wp_clean
      | |- wp (bind (match ?r with Some _ => _ | None => _ end) _) _ _ _ =>
        destruct r; wp_clean
      | |- wp (match ?r with [] => _ | _ :: _ => _ end) _ _ _ =>
        destruct r eqn:?
      | |- wp (if _ then _ else _) _ _ _ => apply wp_if; intros ?
      | |- wp (bind (if _ then _ else _) _) _ _ _ => apply wp_if_bind; intros ?
      | |- wp (bind ?m _) _ _ _ =>
        eapply wp_call; [wp_spec_of m | intros ? ? ? | intros ? ?]; wp_clean
      | |- wp ?m _ _ _ =>
        eapply wp_conseq; [wp_spec_of m | intros ? ? ? | intros ? ?]; wp_clean
      end ].

Ltac dispatch_walk :=
  unfold dispatch, incLineNo, incColNo, resetColNo, appendStrbuf, appendBuf;
  wp_walk.

Section Progress.
Context {go : GoLibrary}.
Variables fatalError debugLexer : bool.

Lemma dispatch_progress char s :
  wp (dispatch fatalError debugLexer char)
     (fun _ s' => suffix (pending (buffered s')) (pending (buffered s)))
     (fun s' => suffix (pending (buffered s')) (pending (buffered s))) s.
Proof.
  dispatch_walk.
  all: leaf.
  all: eauto using suffix_cons, suffix_refl, suffix_nil, readThrough_suffix, suffix_trans.
Qed.

Lemma wp_and {A} (m : M A) (Q1 Q2 : A -> lexer -> Prop) (X1 X2 : lexer -> Prop) s :
  wp m Q1 X1 s -> wp m Q2 X2 s ->
  wp m (fun a s' => Q1 a s' /\ Q2 a s') (fun s' => X1 s' /\ X2 s') s.
Proof. unfold wp. destruct (m s); auto. Qed.

(** The loop rule: an invariant of the rounds holds when the loop ends, which
    it does, at end of input, when the fuel exceeds the number of runes. *)
Lemma mainLoop_rule (I X : lexer -> Prop) :
  (forall s c rest, I s -> pending (buffered s) = c :: rest ->
     wp (dispatch fatalError debugLexer c ;; incColNo)
        (fun _ s' => I s' /\
           (List.length (pending (buffered s')) <= List.length rest)%nat)
        X (set_buffered (mkReader rest (Some c)) s)) ->
  forall fuel s, I s -> (List.length (pending (buffered s)) < fuel)%nat ->
  wp (mainLoop fatalError debugLexer fuel)
     (fun _ s' => exists s0, I s0 /\ pending (buffered s0) = [] /\
                  s' = set_buffered (mkReader [] None) s0)
     X s.
Proof.
  intros Hround. induction fuel as [|fuel IH]; intros s HI Hlen; [lia|].
  cbn [mainLoop].
  eapply wp_call; [apply ReadRune_spec| |intros ? []].
  intros [c|] s1 H.
  - destruct H as (rest & Hp & ->).
    apply (wp_bind_assoc_rev (dispatch fatalError debugLexer c)
             (fun _ => incColNo) (fun _ => mainLoop fatalError debugLexer fuel)).
    eapply wp_call; [apply (Hround s c rest HI Hp)| |auto].
    intros _ s2 [HI2 Hle].
    apply IH; [exact HI2|]. rewrite Hp in Hlen. cbn in Hlen. lia.
  - destruct H as (Hp & ->). apply wp_ret. eauto.
Qed.

Lemma round_progress c rest s :
  wp (dispatch fatalError debugLexer c ;; incColNo)
     (fun _ s' => (List.length (pending (buffered s')) <= List.length rest)%nat)
     (fun _ => True) (set_buffered (mkReader rest (Some c)) s).
Proof.
  eapply wp_call; [apply dispatch_progress| |auto].
  intros ? s1 H. unfold incColNo. wp_pure. lexer_simpl.
  apply suffix_length in H. exact H.
Qed.

Lemma skipShebang_spec s :
  wp skipShebang
     (fun _ s' => unchanged s s' /\
                  suffix (pending (buffered s')) (pending (buffered s)))
     (fun _ => False) s.
Proof.
  unfold skipShebang, incLineNo, unchanged. wp_walk; lexer_simpl.
  - repeat split. apply readThrough_suffix.
  - repeat split. apply suffix_refl.
Qed.

(** Tokenize always comes to an end: it returns, or the fatal log path has
    terminated the process. *)
Lemma Tokenize_returns unbuffered :
  exists toks, emitted (Tokenize fatalError debugLexer unbuffered) = Some toks.
Proof.
  assert (H : wp (skipShebang ;; mainLoop fatalError debugLexer (S (List.length unbuffered)) ;;
                  ensureSeparator fatalError debugLexer)
                 (fun _ _ => True) (fun _ => True) (initial unbuffered)).
  { eapply wp_call; [apply skipShebang_spec| |intros ? []].
    intros ? s1 [_ H1]. cbn in H1. apply suffix_length in H1.
    eapply wp_call;
      [apply (mainLoop_rule (fun _ => True) (fun _ => True))| |auto].
    - intros s c rest _ _.
      eapply wp_conseq; [apply round_progress|cbv beta; auto|auto].
    - exact I.
    - lia.
    - intros ? s2 _.
      eapply wp_conseq; [apply ensureSeparator_spec|auto|auto]. }
  unfold Tokenize. unfold wp in H.
  destruct ((skipShebang;; mainLoop fatalError debugLexer (S (List.length unbuffered));;
             ensureSeparator fatalError debugLexer) (initial unbuffered));
    cbn; eauto. contradiction.
Qed.

End Progress.

(** ** The library enters only through the values of its functions *)

Definition agree (g1 g2 : GoLibrary) : Prop :=
  (forall s, @ParseFloat g1 s = @ParseFloat g2 s) /\
  (forall r, @Digit g1 r = @Digit g2 r) /\
  (forall r, @White_Space g1 r = @White_Space g2 r).

(** The library [go] with the value of ParseFloat at [s0] written out. *)
Definition withParse (go : GoLibrary) (s0 : gostring) (v : float * option string)
  : GoLibrary :=
  {| ParseFloat := fun s => if gostring_eqb s s0 then v else @ParseFloat go s;
     Digit := @Digit go;
     White_Space := @White_Space go |}.

Lemma gostring_eqb_eq a b : gostring_eqb a b = true -> a = b.
Proof.
  revert b. induction a as [|x a IH]; intros [|y b]; cbn; try discriminate; auto.
  intros H. apply andb_prop in H. destruct H as [H1 H2].
  apply Z.eqb_eq in H1. apply IH in H2. congruence.
Qed.

Lemma withParse_agree go s0 v :
  @ParseFloat go s0 = v -> agree go (withParse go s0 v).
Proof.
  intros H. repeat split. intros s. cbn.
  destruct (gostring_eqb s s0) eqn:E; [|reflexivity].
  apply gostring_eqb_eq in E. congruence.
Qed.

Section Agree.
Variables g1 g2 : GoLibrary.
Hypothesis Hagree : agree g1 g2.
Variables fatalError debugLexer : bool.

Lemma IsDigit_agree r : @IsDigit g1 r = @IsDigit g2 r.
Proof. unfold IsDigit. destruct (r <=? MaxLatin1); [reflexivity|apply Hagree]. Qed.

Lemma IsSpace_agree r : @IsSpace g1 r = @IsSpace g2 r.
Proof. unfold IsSpace. destruct ((0 <=? r) && (r <=? MaxLatin1)); [reflexivity|apply Hagree]. Qed.

Lemma commitClear_agree s :
  @commitClear g1 fatalError debugLexer s = @commitClear g2 fatalError debugLexer s.
Proof.
  unfold commitClear, bind, get. destruct (buf s); [reflexivity|].
  rewrite IsDigit_agree. destruct Hagree as [-> _]. reflexivity.
Qed.

Lemma commit_agree tok s :
  @commit g1 fatalError debugLexer tok s = @commit g2 fatalError debugLexer tok s.
Proof. unfold commit, bind. rewrite commitClear_agree. reflexivity. Qed.

Lemma commitChar_agree k s :
  @commitChar g1 fatalError debugLexer k s = @commitChar g2 fatalError debugLexer k s.
Proof. unfold commitChar, bind, get. apply commit_agree. Qed.

Lemma ensureSeparator_agree s :
  @ensureSeparator g1 fatalError debugLexer s = @ensureSeparator g2 fatalError debugLexer s.
Proof.
  unfold ensureSeparator, bind, get. rewrite commitClear_agree.
  destruct (commitClear fatalError debugLexer s) as [a s'| |]; try reflexivity.
  destruct (lastKind s'); first [reflexivity | apply commitChar_agree].
Qed.

Lemma bind_agree {A B} (m1 m2 : M A) (k1 k2 : A -> M B) s :
  m1 s = m2 s -> (forall a s', k1 a s' = k2 a s') -> bind m1 k1 s = bind m2 k2 s.
Proof. intros H K. unfold bind. rewrite H. destruct (m2 s); auto. Qed.

Ltac agree_step :=
  lazymatch goal with
  | |- ?x = ?x => reflexivity
  | |- @commitClear _ _ _ _ = @commitClear _ _ _ _ => apply commitClear_agree
  | |- @commitChar _ _ _ _ _ = @commitChar _ _ _ _ _ => apply commitChar_agree
  | |- @commit _ _ _ _ _ = @commit _ _ _ _ _ => apply commit_agree
  | |- @ensureSeparator _ _ _ _ = @ensureSeparator _ _ _ _ =>
    apply ensureSeparator_agree
  | |- bind _ _ _ = bind _ _ _ => apply bind_agree; [|intros ? ?]
  | |- (match ?r with Some _ => _ | None => _ end) _ =
       (match ?r with Some _ => _ | None => _ end) _ => destruct r
  | |- (match ?r with [] => _ | _ :: _ => _ end) _ =
       (match ?r with [] => _ | _ :: _ => _ end) _ => destruct r
  | |- (if ?b then _ else _) _ = (if ?b then _ else _) _ => destruct b
  end.

Lemma dispatch_agree char s :
  @dispatch g1 fatalError debugLexer char s = @dispatch g2 fatalError debugLexer char s.
Proof.
  unfold dispatch. rewrite IsSpace_agree.
  assert (E : forall b, existsb (fun d => negb (@IsDigit g1 d)) b =
                        existsb (fun d => negb (@IsDigit g2 d)) b).
  { induction b as [|d b IH]; cbn; [reflexivity|].
    rewrite IsDigit_agree, IH. reflexivity. }
  apply bind_agree; [reflexivity|]. intros inString s1.
  repeat agree_step.
  rewrite E. repeat agree_step.
Qed.

Lemma mainLoop_agree fuel s :
  @mainLoop g1 fatalError debugLexer fuel s = @mainLoop g2 fatalError debugLexer fuel s.
Proof.
  revert s. induction fuel as [|fuel IH]; intros s; [reflexivity|].
  cbn [mainLoop]. apply bind_agree; [reflexivity|]. intros [c|] s1; [|reflexivity].
  apply bind_agree; [apply dispatch_agree|]. intros ? s2.
  apply bind_agree; [reflexivity|]. intros ? s3. apply IH.
Qed.

Lemma Tokenize_agree unbuffered :
  @Tokenize g1 fatalError debugLexer unbuffered =
  @Tokenize g2 fatalError debugLexer unbuffered.
Proof.
  unfold Tokenize. apply bind_agree; [reflexivity|]. intros ? s1.
  apply bind_agree; [apply mainLoop_agree|]. intros ? s2.
  apply ensureSeparator_agree.
Qed.

End Agree.

(** ** Scenario D: a function with an arrow *)

Definition ident (s : string) : Kind * gostring * float := (Identifier, runes s, 0%float).
Definition op (k : Kind) : Kind * gostring * float := (k, [], 0%float).
Definition number (f : float) : Kind * gostring * float := (NumberLiteral, [], f).
Definition text (s : string) : Kind * gostring * float := (StringLiteral, runes s, 0%float).

(** The stream of an input, positions dropped. *)
Definition stream (r : Res unit) : option (list (Kind * gostring * float)) :=
  option_map (map payload) (emitted r).

Definition newline : gostring := [rn "010"].

(** Deciding the closed tests of the dispatcher at a given rune. *)
Ltac decide_tests :=
  repeat match goal with
         | |- context [if ?b then _ else _] =>
           first [change b with true | change b with false]; cbv iota
         end.

(** Running the lexer with the value of ParseFloat at one text fixed. *)
Ltac parse_known H :=
  rewrite (Tokenize_agree _ _ (withParse_agree _ _ _ H)).

Section Scenarios.
Context {go : GoLibrary}.
Variables fatalError debugLexer : bool.

(** C1 (as amended).  For the input [f := (x) => x + 1] Tokenize sends
    Identifier f, DefineOp, LeftParen, Identifier x, Separator, RightParen,
    FunctionArrow, Identifier x, AddOp, NumberLiteral 1, Separator: the
    Separator synthesized at the closing parenthesis comes before the
    RightParen token, because [ensureSeparator] runs before [commitChar]. *)
Theorem function_arrow_stream :
  ParseFloat (runes "1") = (1%float, None) ->
  stream (Tokenize fatalError debugLexer (runes "f := (x) => x + 1")) =
  Some [ident "f"; op DefineOp; op LeftParen; ident "x"; op Separator;
        op RightParen; op FunctionArrow; ident "x"; op AddOp;
        number 1%float; op Separator].
Proof.
  intros H. parse_known H.
  destruct fatalError, debugLexer; vm_compute; reflexivity.
Qed.

(** C5.  On a dot outside a string literal: when [buf] is empty or holds a
    rune that is not a digit, the pending [buf] is committed and AccessorOp
    is sent; when [buf] is non-empty and all digits, the dot is appended to
    [buf] and nothing is sent.  So [1.2.3] is NumberLiteral 1.2, AccessorOp,
    NumberLiteral 3 and the closing Separator. *)
Theorem dot_rule :
  ParseFloat (runes "1.2") = (1.2%float, None) ->
  ParseFloat (runes "3") = (3%float, None) ->
  (forall s, inStringLiteral s = false ->
     buf s = [] \/ existsb (fun d => negb (IsDigit d)) (buf s) = true ->
     wp (dispatch fatalError debugLexer (rn "."))
        (fun _ s' =>
           tokens s' = tokens s ++ flushed s ++ [charTok AccessorOp (cursor s)] /\
           buf s' = [])
        (fun s' => fatalError = true /\ tokens s' = tokens s /\ buf s <> []) s) /\
  (forall s, inStringLiteral s = false ->
     buf s <> [] -> existsb (fun d => negb (IsDigit d)) (buf s) = false ->
     dispatch fatalError debugLexer (rn ".") s =
     Ok tt (set_buf (buf s ++ runes ".") s)) /\
  stream (Tokenize fatalError debugLexer (runes "1.2.3")) =
  Some [number 1.2%float; op AccessorOp; number 3%float; op Separator].
Proof.
  intros H12 H3. split; [|split].
  - intros s Hin Hb.
    assert (Hc : wp (commitChar fatalError debugLexer AccessorOp)
        (fun _ s' =>
           tokens s' = tokens s ++ flushed s ++ [charTok AccessorOp (cursor s)] /\
           buf s' = [])
        (fun s' => fatalError = true /\ tokens s' = tokens s /\ buf s <> []) s).
    { eapply wp_conseq; [apply commitChar_spec| |].
      - intros ? s' [S B]. split; [apply S|exact B].
      - intros s' (S & _ & F & N). destruct S as (_ & T & _).
        rewrite app_nil_r in T. auto. }
    unfold dispatch. apply wp_get. rewrite Hin. decide_tests. apply wp_get.
    destruct (existsb (fun d => negb (IsDigit d)) (buf s)) eqn:E; [exact Hc|].
    destruct Hb as [Hb|Hb]; [|discriminate]. rewrite Hb in Hc |- *. exact Hc.
  - intros s Hin Hb E.
    unfold dispatch. cbn [bind get]. rewrite Hin. decide_tests.
    cbn [bind get]. rewrite E.
    destruct (buf s) eqn:B; [contradiction|].
    unfold modify. rewrite B. reflexivity.
  - parse_known H12.
    assert (H3' : @ParseFloat (withParse go (runes "1.2") (1.2%float, None)) (runes "3")
                  = (3%float, None)) by exact H3.
    parse_known H3'.
    destruct fatalError, debugLexer; vm_compute; reflexivity.
Qed.

(** C7.  Inside a string literal a backslash makes the lexer read the next
    rune and append it to [strbuf] as it is, bumping [colNo] once more; the
    six runes quote h i backslash n quote give StringLiteral hin and a
    Separator. *)
Theorem backslash_rule :
  (forall s c rest,
     inStringLiteral s = true -> pending (buffered s) = c :: rest ->
     dispatch fatalError debugLexer (rn "\") s =
     Ok tt (set_colNo (wrap (colNo s + 1))
              (set_strbuf (strbuf s ++ string_of_rune c)
                 (set_buffered (mkReader rest (Some c)) s)))) /\
  stream (Tokenize fatalError debugLexer (runes "'hi\n'")) =
  Some [text "hin"; op Separator].
Proof.
  split.
  - intros s c rest Hin Hp.
    unfold dispatch. cbn [bind get]. rewrite Hin. decide_tests.
    unfold bind, ReadRune. rewrite Hp. reflexivity.
  - destruct fatalError, debugLexer; vm_compute; reflexivity.
Qed.

(** C8.  The lines before the main loop look at the first two runes: when
    they are [#!] the reader is advanced past the next newline (or to the end
    of input when there is none) and [lineNo] becomes 2; otherwise nothing
    changes.  No token is sent either way.  A script that starts with a
    shebang line followed by [x] is lexed as Identifier x, Separator. *)
Theorem shebang_rule :
  (forall unbuffered,
     skipShebang (initial unbuffered) =
     Ok tt (if gostring_eqb (firstn 2 unbuffered) (runes "#!")
            then set_lineNo 2
                   (set_buffered (readThrough (rn "010") unbuffered)
                      (initial unbuffered))
            else initial unbuffered)) /\
  (forall unbuffered,
     gostring_eqb (firstn 2 unbuffered) (runes "#!") = true <->
     exists rest, unbuffered = rn "#" :: rn "!" :: rest) /\
  (forall skipped rest,
     ~ In (rn "010") skipped ->
     readThrough (rn "010") (skipped ++ rn "010" :: rest) =
     mkReader rest (Some (rn "010"))) /\
  (forall skipped,
     ~ In (rn "010") skipped ->
     readThrough (rn "010") skipped = mkReader [] None) /\
  stream (Tokenize fatalError debugLexer
            (runes "#!/usr/bin/env ink" ++ newline ++ runes "x")) =
  Some [ident "x"; op Separator].
Proof.
  split; [|split; [|split; [|split]]].
  - intros unbuffered. unfold skipShebang. cbn [bind get].
    destruct (gostring_eqb _ _); reflexivity.
  - intros unbuffered. split.
    + intros H. destruct unbuffered as [|a [|b rest]];
        cbn [firstn gostring_eqb runes map list_ascii_of_string] in H;
        repeat match goal with
               | H : _ && _ = true |- _ => apply andb_prop in H; destruct H
               end;
        try discriminate.
      repeat match goal with
             | H : (_ =? _) = true |- _ => apply Z.eqb_eq in H
             end.
      subst. eexists. reflexivity.
    + intros [rest ->]. reflexivity.
  - intros skipped rest. induction skipped as [|c l IH]; intros Hn.
    + reflexivity.
    + cbn [app readThrough].
      destruct (c =? rn "010") eqn:E.
      * apply Z.eqb_eq in E. subst. exfalso. apply Hn. left. reflexivity.
      * apply IH. intros Hi. apply Hn. right. exact Hi.
  - intros skipped. induction skipped as [|c l IH]; intros Hn.
    + reflexivity.
    + cbn [readThrough].
      destruct (c =? rn "010") eqn:E.
      * apply Z.eqb_eq in E. subst. exfalso. apply Hn. left. reflexivity.
      * apply IH. intros Hi. apply Hn. right. exact Hi.
  - destruct fatalError, debugLexer; vm_compute; reflexivity.
Qed.


(** C10.  When the input ends right after a colon, an equals sign or a minus
    outside a string literal, the read of the next rune fails and the switch
    is left: the round sends no token and only bumps [colNo], the loop ends,
    and what remains is the final [ensureSeparator].  The input [a=] gives
    Identifier a, Separator and no EqualOp. *)
Theorem operator_at_end_of_input :
  (forall s c,
     c = rn ":" \/ c = rn "=" \/ c = rn "-" ->
     inStringLiteral s = false -> pending (buffered s) = [] ->
     dispatch fatalError debugLexer c s =
     Ok tt (set_buffered (mkReader [] None) s)) /\
  (forall s c fuel,
     c = rn ":" \/ c = rn "=" \/ c = rn "-" ->
     inStringLiteral s = false -> pending (buffered s) = [c] ->
     mainLoop fatalError debugLexer (S (S fuel)) s =
     Ok tt (set_colNo (wrap (colNo s + 1)) (set_buffered (mkReader [] None) s))) /\
  stream (Tokenize fatalError debugLexer (runes "a=")) =
  Some [ident "a"; op Separator].
Proof.
  assert (Hd : forall s c,
     c = rn ":" \/ c = rn "=" \/ c = rn "-" ->
     inStringLiteral s = false -> pending (buffered s) = [] ->
     dispatch fatalError debugLexer c s =
     Ok tt (set_buffered (mkReader [] None) s)).
  { intros s c Hc Hin Hp.
    unfold dispatch. cbn [bind get]. rewrite Hin.
    destruct Hc as [->|[->| ->]]; decide_tests;
      unfold bind, ReadRune; rewrite Hp; reflexivity. }
  split; [exact Hd|split].
  - intros s c fuel Hc Hin Hp.
    cbn [mainLoop]. unfold bind at 1, ReadRune at 1. rewrite Hp.
    unfold bind at 1. rewrite Hd; [|exact Hc|exact Hin|reflexivity].
    reflexivity.
  - destruct fatalError, debugLexer; vm_compute; reflexivity.
Qed.

End Scenarios.

(** ** The stream and the log along a run *)

Lemma last_cons_default {A} (x : A) (l : list A) (d : A) :
  last (x :: l) d = last l x.
Proof.
  destruct l as [|y l]; [reflexivity|].
  change (last (y :: l) d = last (y :: l) x). apply last_nonempty.
Qed.

Lemma pairsAfter_app k a b :
  pairsAfter k (a ++ b) = (pairsAfter k a + pairsAfter (lastKindAfter k a) b)%nat.
Proof.
  revert k. induction a as [|t a IH]; intros k; [reflexivity|].
  cbn [app pairsAfter]. rewrite IH.
  unfold lastKindAfter. cbn [map]. rewrite last_cons_default. lia.
Qed.

Lemma sepPairs_app_le k a b :
  (sepPairs (a ++ b) <= sepPairs a + pairsAfter (lastKindAfter k a) b)%nat.
Proof.
  destruct a as [|t a].
  - destruct b as [|u b]; cbn; lia.
  - cbn [app sepPairs]. rewrite pairsAfter_app.
    unfold lastKindAfter. cbn [map]. rewrite last_cons_default. lia.
Qed.

Section Stream.
Context {go : GoLibrary}.
Variables fatalError debugLexer : bool.

Lemma bufTok_kind s :
  isSeparator (kind (bufTok s)) = false /\ quiet (kind (bufTok s)) = false.
Proof.
  unfold bufTok.
  destruct (gostring_eqb _ _); [split; reflexivity|].
  destruct (gostring_eqb _ _); [split; reflexivity|].
  destruct (IsDigit _); split; reflexivity.
Qed.

Lemma pairs_flushed k s : pairsAfter k (flushed s) = 0%nat.
Proof.
  unfold flushed. destruct (buf s); [reflexivity|].
  cbn. destruct (bufTok_kind s) as [-> _]. rewrite andb_false_r. reflexivity.
Qed.

Lemma pairs_flushed_tok k s t :
  (pairsAfter k (flushed s ++ [t]) <= if isSeparator (kind t) then 1 else 0)%nat.
Proof.
  rewrite pairsAfter_app, pairs_flushed. unfold flushed, lastKindAfter.
  destruct (buf s); cbn.
  - destruct (isSeparator k), (isSeparator (kind t)); cbn; lia.
  - destruct (bufTok_kind s) as [-> _]. cbn. destruct (isSeparator (kind t)); lia.
Qed.

Lemma pairs_ensure s :
  pairsAfter (lastKind s) (flushed s ++ synthesized s) = 0%nat.
Proof.
  rewrite pairsAfter_app, pairs_flushed. unfold synthesized.
  destruct (quiet (lastKindAfter (lastKind s) (flushed s))) eqn:Q; [reflexivity|].
  cbn. destruct (lastKindAfter (lastKind s) (flushed s)); cbn in *;
    first [reflexivity | discriminate].
Qed.

(** The state of the stream: [lastKind] is the kind of the last token sent
    (Separator before the first), the log holds entries of the lexer only,
    and at most [n] Separators directly follow a Separator. *)
Definition Stream (n : nat) (s : lexer) : Prop :=
  lastKind s = lastKindAfter Separator (tokens s) /\
  Forall (lexerEvent fatalError debugLexer) (diag s) /\
  (sepPairs (tokens s) <= n)%nat.

Lemma Stream_mono n m s : (n <= m)%nat -> Stream n s -> Stream m s.
Proof. unfold Stream. intros L (A & B & C). repeat split; auto. lia. Qed.

Lemma Stream_sends n d a b toks :
  Stream n a -> sends fatalError debugLexer a b toks ->
  (pairsAfter (lastKind a) toks <= d)%nat -> Stream (n + d) b.
Proof.
  intros (I & L & P) (_ & T & K & evs & D & E) Hd. unfold Stream.
  rewrite T, K, D, I. split; [symmetry; apply lastKindAfter_app|].
  split; [apply Forall_app; auto|].
  pose proof (sepPairs_app_le Separator (tokens a) toks) as Hle.
  rewrite <- I in Hle. lia.
Qed.

Lemma Stream_unchanged n a b : Stream n a -> unchanged a b -> Stream n b.
Proof.
  intros (I & L & P) (_ & _ & _ & _ & K & _ & T & D). unfold Stream.
  rewrite K, T, D. auto.
Qed.

Ltac stream_step :=
  match goal with
  | H : sends _ _ ?a ?b (flushed ?s0 ++ synthesized ?s0), G : Stream ?n _ |- _ =>
    let G' := fresh "G" in
    pose proof (Stream_sends n _ a b _ G H (Nat.eq_le_incl _ _ (pairs_ensure s0))) as G';
    clear H
  | H : sends _ _ ?a ?b (flushed ?s0 ++ [?t]), G : Stream ?n _ |- _ =>
    let G' := fresh "G" in
    pose proof (Stream_sends n _ a b _ G H (pairs_flushed_tok (lastKind a) s0 t)) as G';
    clear H
  | H : sends _ _ ?a ?b (flushed ?s0), G : Stream ?n _ |- _ =>
    let G' := fresh "G" in
    pose proof (Stream_sends n _ a b _ G H
                  (Nat.eq_le_incl _ _ (pairs_flushed (lastKind a) s0))) as G';
    clear H
  | H : sends _ _ ?a ?b [], G : Stream ?n _ |- _ =>
    let G' := fresh "G" in
    pose proof (Stream_sends n 0 a b [] G H (le_n 0)) as G';
    clear H
  | H : unchanged ?a ?b, G : Stream ?n _ |- _ =>
    let G' := fresh "G" in
    pose proof (Stream_unchanged n a b G H) as G';
    clear H
  end.

Ltac stream_leaf :=
  repeat stream_step;
  try match goal with
      | |- context [match lastRune ?r with Some _ => _ | None => _ end] =>
        destruct (lastRune r)
      end;
  match goal with
  | G : Stream ?n _ |- Stream ?m _ =>
    apply (Stream_mono n m); [|exact G]
  end;
  cbn [kind charTok isSeparator];
  repeat match goal with
         | H : ?b = _ |- context [if ?b then _ else _] => rewrite H
         end;
  repeat match goal with
         | |- context [if ?b then _ else _] => destruct b
         end;
  lia.

(** One round of the switch keeps the stream in order; only a comma outside
    a string literal can put a Separator right after a Separator. *)
Lemma dispatch_stream n char s :
  Stream n s ->
  wp (dispatch fatalError debugLexer char)
     (fun _ s' => Stream (n + if (char =? rn ",")%Z then 1 else 0) s')
     (fun s' => Stream (n + if (char =? rn ",")%Z then 1 else 0) s') s.
Proof.
  intros G0. dispatch_walk.
  all: stream_leaf.
Qed.

Lemma commas_suffix a b : suffix a b -> (commas a <= commas b)%nat.
Proof.
  intros [k ->]. unfold commas. rewrite filter_app, length_app.
  apply Nat.le_add_l.
Qed.

Lemma commas_cons c l :
  commas (c :: l) = ((if (c =? rn ",")%Z then 1 else 0) + commas l)%nat.
Proof.
  unfold commas. cbn [filter]. destruct (c =? rn ","); reflexivity.
Qed.

(** The invariant of the rounds: the Separator pairs sent so far are paid
    for by commas already read. *)
Definition Paid (unbuffered : list rune) (s : lexer) : Prop :=
  exists n, Stream n s /\
    (n + commas (pending (buffered s)) <= commas unbuffered)%nat.

Lemma round_stream unbuffered s c rest :
  Paid unbuffered s -> pending (buffered s) = c :: rest ->
  wp (dispatch fatalError debugLexer c ;; incColNo)
     (fun _ s' => Paid unbuffered s' /\
        (List.length (pending (buffered s')) <= List.length rest)%nat)
     (Paid unbuffered) (set_buffered (mkReader rest (Some c)) s).
Proof.
  intros (n & G & L) Hp. rewrite Hp, commas_cons in L.
  eapply wp_call.
  - apply wp_and; [apply (dispatch_stream n c); exact G|apply dispatch_progress].
  - intros ? s1 [G1 S1]. lexer_simpl. unfold incColNo. wp_pure. lexer_simpl.
    pose proof (commas_suffix _ _ S1). pose proof (suffix_length _ _ S1).
    split; [|lia]. exists (n + if (c =? rn ",")%Z then 1 else 0)%nat.
    split; [exact G1|]. lexer_simpl. lia.
  - intros s1 [G1 S1]. lexer_simpl.
    pose proof (commas_suffix _ _ S1).
    exists (n + if (c =? rn ",")%Z then 1 else 0)%nat. split; [exact G1|lia].
Qed.

Lemma Tokenize_stream unbuffered :
  wp (skipShebang ;;
      mainLoop fatalError debugLexer (S (List.length unbuffered)) ;;
      ensureSeparator fatalError debugLexer)
     (fun _ s => Stream (commas unbuffered) s)
     (fun s => Stream (commas unbuffered) s)
     (initial unbuffered).
Proof.
  assert (X : forall s, Paid unbuffered s -> Stream (commas unbuffered) s).
  { intros s (n & G & L). apply (Stream_mono n); [lia|exact G]. }
  eapply wp_call; [apply skipShebang_spec| |intros ? []].
  intros ? s1 [U1 S1].
  assert (P1 : Paid unbuffered s1).
  { cbn in S1. pose proof (commas_suffix _ _ S1).
    exists 0%nat. split; [|lia].
    apply (Stream_unchanged 0 (initial unbuffered)); [|exact U1].
    repeat split. constructor. cbn. lia. }
  apply suffix_length in S1. cbn in S1.
  eapply wp_call;
    [apply (mainLoop_rule fatalError debugLexer (Paid unbuffered) (Paid unbuffered))
    | |exact X].
  - intros s c rest. apply round_stream.
  - exact P1.
  - lia.
  - intros ? s2 (s0 & (n & G & L) & _ & ->).
    eapply wp_conseq; [apply ensureSeparator_spec| |].
    + intros ? s3 [H3 _]. apply (Stream_mono (n + 0)); [lia|].
      apply (Stream_sends n 0 (set_buffered (mkReader [] None) s0) s3 _ G H3).
      apply Nat.eq_le_incl, pairs_ensure.
    + intros s3 (H3 & _). apply (Stream_mono (n + 0)); [lia|].
      apply (Stream_sends n 0 (set_buffered (mkReader [] None) s0) s3 _ G H3).
      apply le_n.
Qed.

Lemma sepPairs_adjacent toks :
  sepPairs toks = 0%nat ->
  forall i a b, nth_error toks i = Some a -> nth_error toks (S i) = Some b ->
  kind a = Separator -> kind b <> Separator.
Proof.
  induction toks as [|t toks IH]; intros Hz i a b Ha Hb Ka Kb.
  - destruct i; discriminate.
  - destruct toks as [|u toks]; [destruct i; cbn in Hb; try discriminate;
                                 destruct i; discriminate|].
    cbn [sepPairs pairsAfter] in Hz.
    destruct i as [|i].
    + cbn in Ha, Hb. inversion Ha; inversion Hb; subst.
      rewrite Ka, Kb in Hz. cbn in Hz. lia.
    + apply (IH (proj2 (proj1 (Nat.eq_add_0 _ _) Hz)) i a b); auto.
Qed.

Lemma sepPairs_app_ge a b : (sepPairs a <= sepPairs (a ++ b))%nat.
Proof.
  destruct a as [|t a]; [cbn; lia|].
  cbn [app sepPairs]. rewrite pairsAfter_app. lia.
Qed.

(** [lastKind] is the kind of the last token sent, and at most [n]
    Separators directly follow a Separator; the log is left aside. *)
Definition Linked (n : nat) (s : lexer) : Prop :=
  lastKind s = lastKindAfter Separator (tokens s) /\ (sepPairs (tokens s) <= n)%nat.

Lemma Linked_mono n m s : (n <= m)%nat -> Linked n s -> Linked m s.
Proof. unfold Linked. intros L (A & B). split; auto. lia. Qed.

Lemma Linked_sends n d a b toks :
  Linked n a -> sends fatalError debugLexer a b toks ->
  (pairsAfter (lastKind a) toks <= d)%nat -> Linked (n + d) b.
Proof.
  intros (I & P) (_ & T & K & _) Hd. unfold Linked.
  rewrite T, K, I. split; [symmetry; apply lastKindAfter_app|].
  pose proof (sepPairs_app_le Separator (tokens a) toks) as Hle.
  rewrite <- I in Hle. lia.
Qed.

Lemma Linked_unchanged n a b : Linked n a -> unchanged a b -> Linked n b.
Proof.
  intros (I & P) (_ & _ & _ & _ & K & _ & T & _). unfold Linked.
  rewrite K, T. auto.
Qed.

Ltac linked_step :=
  match goal with
  | H : sends _ _ ?a ?b (flushed ?s0 ++ synthesized ?s0), G : Linked ?n _ |- _ =>
    let G' := fresh "G" in
    pose proof (Linked_sends n _ a b _ G H (Nat.eq_le_incl _ _ (pairs_ensure s0))) as G';
    clear H
  | H : sends _ _ ?a ?b (flushed ?s0 ++ [?t]), G : Linked ?n _ |- _ =>
    let G' := fresh "G" in
    pose proof (Linked_sends n _ a b _ G H (pairs_flushed_tok (lastKind a) s0 t)) as G';
    clear H
  | H : sends _ _ ?a ?b (flushed ?s0), G : Linked ?n _ |- _ =>
    let G' := fresh "G" in
    pose proof (Linked_sends n _ a b _ G H
                  (Nat.eq_le_incl _ _ (pairs_flushed (lastKind a) s0))) as G';
    clear H
  | H : sends _ _ ?a ?b [], G : Linked ?n _ |- _ =>
    let G' := fresh "G" in
    pose proof (Linked_sends n 0 a b [] G H (le_n 0)) as G';
    clear H
  | H : unchanged ?a ?b, G : Linked ?n _ |- _ =>
    let G' := fresh "G" in
    pose proof (Linked_unchanged n a b G H) as G';
    clear H
  end.

Ltac linked_leaf :=
  repeat linked_step;
  try match goal with
      | |- context [match lastRune ?r with Some _ => _ | None => _ end] =>
        destruct (lastRune r)
      end;
  match goal with
  | G : Linked ?n _ |- Linked ?m _ =>
    apply (Linked_mono n m); [|exact G]
  end;
  cbn [kind charTok isSeparator];
  repeat match goal with
         | H : ?b = _ |- context [if ?b then _ else _] => rewrite H
         end;
  repeat match goal with
         | |- context [if ?b then _ else _] => destruct b
         end;
  lia.

(** One round of the switch adds a place where a Separator follows a
    Separator only on a comma, and then at most one. *)
Lemma dispatch_linked n char s :
  Linked n s ->
  wp (dispatch fatalError debugLexer char)
     (fun _ s' => Linked (n + if (char =? rn ",")%Z then 1 else 0) s')
     (fun s' => Linked (n + if (char =? rn ",")%Z then 1 else 0) s') s.
Proof.
  intros G0. dispatch_walk.
  all: linked_leaf.
Qed.

(** C2 (as amended).  For every input Tokenize ends, and in the stream it
    has sent the number of places where a Separator directly follows a
    Separator is at most the number of commas of the input; an input without
    a comma has no two adjacent Separators.  In every state in which
    [lastKind] is the kind of the last token sent (Separator before the
    first), which every round keeps so: [ensureSeparator], which is what
    synthesizes a Separator at a newline, a closing bracket, a key colon, a
    line comment and the final flush, sends the pending [buf] and then a
    Separator only when the token before it is of no quiet kind, so it adds
    no place where a Separator follows a Separator; a round of the switch
    adds such a place only when its rune is a comma, and then at most one;
    and a comma outside a string literal sends a Separator whatever came
    before. *)
Theorem separator_pairs_bounded :
  (forall unbuffered,
     exists toks,
       emitted (Tokenize fatalError debugLexer unbuffered) = Some toks /\
       (sepPairs toks <= commas unbuffered)%nat /\
       (commas unbuffered = 0%nat ->
        forall i a b, nth_error toks i = Some a -> nth_error toks (S i) = Some b ->
        kind a = Separator -> kind b <> Separator)) /\
  (forall s,
     lastKind s = lastKindAfter Separator (tokens s) ->
     wp (ensureSeparator fatalError debugLexer)
        (fun _ s' =>
           tokens s' = tokens s ++ flushed s ++ synthesized s /\
           pairsAfter (lastKind s) (flushed s ++ synthesized s) = 0%nat /\
           lastKind s' = lastKindAfter Separator (tokens s') /\
           sepPairs (tokens s') = sepPairs (tokens s))
        (fun s' => tokens s' = tokens s) s) /\
  (forall char s,
     lastKind s = lastKindAfter Separator (tokens s) ->
     let grown s' :=
       lastKind s' = lastKindAfter Separator (tokens s') /\
       (sepPairs (tokens s') <=
        sepPairs (tokens s) + if (char =? rn ",")%Z then 1 else 0)%nat in
     wp (dispatch fatalError debugLexer char) (fun _ s' => grown s') grown s) /\
  (forall s,
     inStringLiteral s = false ->
     wp (dispatch fatalError debugLexer (rn ","))
        (fun _ s' =>
           tokens s' = tokens s ++ flushed s ++ [charTok Separator (cursor s)])
        (fun s' => tokens s' = tokens s) s).
Proof.
  split; [|split; [|split]].
  - intros unbuffered.
    pose proof (Tokenize_stream unbuffered) as H. unfold wp in H.
    unfold Tokenize.
    destruct ((skipShebang;;
               mainLoop fatalError debugLexer (S (List.length unbuffered));;
               ensureSeparator fatalError debugLexer) (initial unbuffered))
      as [a s|s|]; [| |contradiction];
      (exists (tokens s); destruct H as (_ & _ & P);
       split; [reflexivity|split; [exact P|]];
       intros Z; apply sepPairs_adjacent; lia).
  - intros s I.
    eapply wp_conseq; [apply ensureSeparator_spec| |].
    + intros ? s' [(_ & T & K & _) _].
      pose proof (pairs_ensure s) as E.
      split; [exact T|]. split; [exact E|].
      split; [rewrite K, T, I; symmetry; apply lastKindAfter_app|].
      apply Nat.le_antisymm.
      * pose proof (sepPairs_app_le Separator (tokens s) (flushed s ++ synthesized s)) as L.
        rewrite <- I, E in L. rewrite T. lia.
      * rewrite T. apply sepPairs_app_ge.
    + intros s' ((_ & T & _) & _). rewrite T. apply app_nil_r.
  - intros char s I grown.
    eapply wp_conseq;
      [apply (dispatch_linked (sepPairs (tokens s)) char s); split; [exact I|lia]
      |intros ? s' G; exact G|intros s' G; exact G].
  - intros s Hin.
    unfold dispatch. apply wp_get. rewrite Hin. decide_tests.
    eapply wp_conseq; [apply commitChar_spec| |].
    + intros ? s' [(_ & T & _) _]. exact T.
    + intros s' ((_ & T & _) & _). rewrite T. apply app_nil_r.
Qed.

(** C6.  When [buf] starts with a digit and does not parse as a float, and
    [fatalError] is false, [commitClear] reports a syntax error on the safe
    log path, with the message "parsing error in number at L:C, " followed by
    the parser's message, and returns; it has cleared [buf] and sent a
    NumberLiteral that carries the value the parser returned.  Along a whole
    run the log holds nothing but such reports (on the path that [fatalError]
    selects) and, when [debugLexer] is set, debug lines. *)
Theorem number_parse_error :
  (forall s f perr,
     IsDigit (index0 (buf s)) = true -> ParseFloat (buf s) = (f, Some perr) ->
     let tok := mkTok NumberLiteral [] f
                  (mkPos (lineNo s) (wrap (colNo s - len (buf s)))) in
     wp (commitClear false debugLexer)
        (fun _ s' =>
           frame s s' /\ buf s' = [] /\ lastKind s' = NumberLiteral /\
           tokens s' = tokens s ++ [tok] /\
           diag s' = diag s ++
             EvSafeErr ErrSyntax (numberError (lineNo s) (colNo s) perr)
             :: (if debugLexer then [EvDebug tok] else []))
        (fun _ => False) s) /\
  (forall perr,
     numberError 3 14 perr =
     ("parsing error in number at 3:14, " ++ perr)%string) /\
  (forall unbuffered,
     exists evs,
       diagnostics (Tokenize fatalError debugLexer unbuffered) = Some evs /\
       Forall (lexerEvent fatalError debugLexer) evs).
Proof.
  split; [|split].
  - intros s f perr Hd Hp tok.
    unfold commitClear. apply wp_get.
    destruct (buf s) as [|c0 cb] eqn:Hb; [vm_compute in Hd; discriminate|].
    apply wp_modify.
    destruct (gostring_eqb (c0 :: cb) (runes "true")) eqn:E1;
      [apply gostring_eqb_eq in E1; rewrite E1 in Hd; vm_compute in Hd; discriminate|].
    destruct (gostring_eqb (c0 :: cb) (runes "false")) eqn:E2;
      [apply gostring_eqb_eq in E2; rewrite E2 in Hd; vm_compute in Hd; discriminate|].
    rewrite Hd, Hp. unfold LogSafeErr, simpleCommit, LogDebug. wp_pure. lexer_simpl.
    destruct debugLexer; wp_pure; unfold frame; lexer_simpl;
      repeat split; rewrite <- ?app_assoc; reflexivity.
  - intros perr. reflexivity.
  - intros unbuffered.
    pose proof (Tokenize_stream unbuffered) as H. unfold wp in H.
    unfold Tokenize.
    destruct ((skipShebang;;
               mainLoop fatalError debugLexer (S (List.length unbuffered));;
               ensureSeparator fatalError debugLexer) (initial unbuffered))
      as [a s|s|]; [| |contradiction];
      (exists (diag s); split; [reflexivity|apply H]).
Qed.

End Stream.

(** ** Positions along a run *)

Lemma wrap_small z : - 2 ^ 63 <= z < 2 ^ 63 -> wrap z = z.
Proof. intros H. unfold wrap. rewrite Z.mod_small; lia. Qed.








(** The kinds whose position is taken from the position counters, at the
    moment the token is sent or, for a string literal, at its opening quote:
    all but identifiers and numbers. *)
Definition counted (k : Kind) : bool :=
  match k with
  | Identifier | NumberLiteral => false
  | _ => true
  end.

(** The kinds of the tokens that are not made from [buf]: operators,
    brackets, Separators, the underscore and string literals. *)
Definition placed (k : Kind) : bool :=
  match k with
  | Identifier | NumberLiteral | TrueLiteral | FalseLiteral => false
  | _ => true
  end.

Definition places (toks : list Tok) : list position :=
  map pos (filter (fun t => placed (kind t)) toks).


(** Where the string literal in progress was opened. *)
Definition start (s : lexer) : position :=
  mkPos (strbufStartLine s) (strbufStartCol s).

(** The position the next token not made from [buf] will carry at the
    earliest: inside a string literal that of its opening quote. *)
Definition anchor (s : lexer) : position :=
  if inStringLiteral s then start s else cursor s.

(** The positions sent so far: lines start at 1; the tokens placed from the
    counters have a column of at least 1; the stamped tokens come in reading
    order, none beyond the position counters; and so do the tokens not made
    from [buf], none beyond the anchor. *)
Definition Pos (s : lexer) : Prop :=
  Forall (fun t => 1 <= line (pos t)) (tokens s) /\
  Forall (fun t => counted (kind t) = true -> 1 <= col (pos t)) (tokens s) /\
  nondecreasing (stamps (tokens s) ++ [cursor s]) /\
  nondecreasing (places (tokens s) ++ [anchor s]).


(** A string literal in progress was opened at a rune of a line, not after
    the position counters. *)
Definition Start (s : lexer) : Prop :=
  inStringLiteral s = true ->
  1 <= strbufStartLine s /\ 1 <= strbufStartCol s /\
  (strbufStartLine s < lineNo s \/
   (strbufStartLine s = lineNo s /\ strbufStartCol s <= colNo s)).









Section Positions.
Context {go : GoLibrary}.
Variables fatalError debugLexer : bool.






(** What the walk needs to know after a commit function. *)
Definition kept (a b : lexer) : Prop :=
  Pos b /\ lineNo b = lineNo a /\ colNo b = colNo a /\ buffered b = buffered a /\
  inStringLiteral b = inStringLiteral a /\ strbufStartLine b = strbufStartLine a /\
  strbufStartCol b = strbufStartCol a.






Ltac pos_norm :=
  unfold kept, Start in *; wp_clean; lexer_simpl; rew_fields; lexer_simpl;
  cbn [negb List.length] in *;
  repeat match goal with
         | H : true = true -> _ |- _ => specialize (H eq_refl)
         | H : false = true -> _ |- _ => clear H
         end;
  wp_clean.

Ltac unwrap :=
  repeat match goal with
         | |- context [wrap ?z] => rewrite (wrap_small z) in * by lia
         | H : context [wrap ?z] |- _ => rewrite (wrap_small z) in * by lia
         end.

Ltac read_bounds :=
  repeat match goal with
         | |- context [readThrough ?c ?l] =>
           lazymatch goal with
           | _ : (List.length (pending (readThrough c l)) <= List.length l)%nat |- _ => fail
           | _ => pose proof (suffix_length _ _ (readThrough_suffix c l))
           end
         end.

Ltac num :=
  pos_norm; unfold posLe, anchor, start; lexer_simpl;
  repeat match goal with
         | H : inStringLiteral ?x = _ |- context [inStringLiteral ?x] => rewrite H
         end;
  cbv iota; lexer_simpl;
  repeat match goal with
         | H : _ = true |- _ => clear H
         | H : _ = false |- _ => clear H
         end;
  read_bounds; unwrap; lia.










End Positions.

(** ** Positions and the runes of the input *)































Section ExactPositions.
Context {go : GoLibrary}.
Variables fatalError debugLexer : bool.






























End ExactPositions.

(** ** The accumulator and string literals *)

Section Accumulator.
Context {go : GoLibrary}.
Variables fatalError debugLexer : bool.

(** C3 (as amended).  While [inStringLiteral] is set no rune is appended to
    [buf]: a round on any rune but the quote leaves [buf] and the tokens as
    they are, and the closing quote commits [buf] with the literal and leaves
    it empty.  The opening quote does not flush [buf]: it only resets
    [strbuf], records the position and sets the flag, so [buf] is non-empty
    inside a literal exactly when it was pending at the opening quote.  A
    block comment does the same: the round that reads it leaves [buf] and
    the tokens as they are. *)
Theorem buf_inside_string_literal :
  (forall s char,
     inStringLiteral s = true -> char <> rn "'" ->
     wp (dispatch fatalError debugLexer char)
        (fun _ s' =>
           buf s' = buf s /\ inStringLiteral s' = true /\ tokens s' = tokens s)
        (fun _ => False) s) /\
  (forall s,
     inStringLiteral s = true ->
     wp (dispatch fatalError debugLexer (rn "'"))
        (fun _ s' =>
           buf s' = [] /\ inStringLiteral s' = false /\
           tokens s' = tokens s ++ flushed s ++
             [mkTok StringLiteral (strbuf s) 0%float
                (mkPos (strbufStartLine s) (strbufStartCol s))])
        (fun s' => buf s' = [] /\ fatalError = true /\ tokens s' = tokens s) s) /\
  (forall s,
     inStringLiteral s = false ->
     dispatch fatalError debugLexer (rn "'") s =
     Ok tt (set_inStringLiteral true
              (set_strbufStart (lineNo s) (colNo s) (set_strbuf [] s)))) /\
  (forall s next rest,
     inStringLiteral s = false -> pending (buffered s) = next :: rest ->
     next <> rn "`" ->
     wp (dispatch fatalError debugLexer (rn "`"))
        (fun _ s' =>
           buf s' = buf s /\ inStringLiteral s' = false /\ tokens s' = tokens s)
        (fun _ => False) s).
Proof.
  split; [|split; [|split]].
  - intros s char Hin Hq.
    unfold dispatch, incLineNo, incColNo, resetColNo, appendStrbuf.
    apply wp_get. rewrite Hin.
    apply wp_if; intros E; [apply Z.eqb_eq in E; contradiction|].
    cbv iota. wp_walk; lexer_simpl; auto.
  - intros s Hin.
    unfold dispatch. apply wp_get. rewrite Hin. decide_tests. wp_pure.
    eapply wp_call; [apply commit_spec| |].
    + intros ? s1 [S B]. wp_pure. lexer_simpl.
      destruct S as (_ & T & _). auto.
    + intros s1 (S & B & F & _). destruct S as (_ & T & _).
      rewrite app_nil_r in T. auto.
  - intros s Hin.
    unfold dispatch. cbn [bind get]. rewrite Hin. decide_tests. reflexivity.
  - intros s next rest Hin Hp Hn.
    unfold dispatch. apply wp_get. rewrite Hin. decide_tests.
    eapply wp_call; [apply ReadRune_spec| |intros ? []].
    intros [c|] s1 H; [|rewrite Hp in H; destruct H; discriminate].
    destruct H as (rest' & Hp' & ->). rewrite Hp in Hp'. inversion Hp'; subst.
    apply wp_if; intros E; [apply Z.eqb_eq in E; contradiction|].
    apply wp_get. lexer_simpl.
    eapply wp_conseq; [apply blockComment_spec| |auto].
    intros ? s' [(B & _ & _ & _ & _ & I & T & _) _]. lexer_simpl.
    rewrite B, I, T. auto.
Qed.

End Accumulator.

(** ** Runs of the lexer *)

(** C1, the stream the code sends: Separator, then RightParen. *)
Lemma function_arrow_separator_before_paren :
  option_map (map kind)
    (emitted (@Tokenize decimalLibrary false false (runes "f := (x) => x + 1"))) =
  Some [Identifier; DefineOp; LeftParen; Identifier; Separator; RightParen;
        FunctionArrow; Identifier; AddOp; NumberLiteral; Separator].
Proof. vm_compute. reflexivity. Qed.

Lemma function_arrow_stream_run :
  stream (@Tokenize decimalLibrary false false (runes "f := (x) => x + 1")) =
  Some [ident "f"; op DefineOp; op LeftParen; ident "x"; op Separator;
        op RightParen; op FunctionArrow; ident "x"; op AddOp;
        number 1%float; op Separator].
Proof.
  apply (@function_arrow_stream decimalLibrary false false). reflexivity.
Defined.

(** C2: two commas give two Separators in a row. *)
Lemma two_commas_two_separators :
  stream (@Tokenize decimalLibrary false false (runes ",,")) =
  Some [op Separator; op Separator].
Proof. vm_compute. reflexivity. Qed.

(** A state after a comma, with its Separator sent and a newline to read. *)
Definition afterComma : lexer :=
  mkLexer [] [] 0 0 Separator 1 2 false (mkReader [] (Some (rn "010")))
    [charTok Separator (mkPos 1 1)] [].

Lemma separator_pairs_bounded_run :
  wp (@ensureSeparator decimalLibrary false false)
     (fun _ s' =>
        tokens s' = tokens afterComma ++ flushed afterComma ++ synthesized afterComma /\
        pairsAfter (lastKind afterComma)
          (flushed afterComma ++ synthesized afterComma) = 0%nat /\
        lastKind s' = lastKindAfter Separator (tokens s') /\
        sepPairs (tokens s') = sepPairs (tokens afterComma))
     (fun s' => tokens s' = tokens afterComma) afterComma /\
  synthesized afterComma = [].
Proof.
  split; [|reflexivity].
  apply (proj1 (proj2 (@separator_pairs_bounded decimalLibrary false false))
           afterComma).
  reflexivity.
Defined.

(** C3: after [a] and a quote the lexer is inside a string literal and
    [buf] still holds [a]. *)
Lemma identifier_pending_inside_string :
  exists s,
    @mainLoop decimalLibrary false false 3 (initial (runes "a'")) = Ok tt s /\
    inStringLiteral s = true /\ buf s = runes "a".
Proof. eexists. split; [vm_compute; reflexivity|]. split; reflexivity. Qed.

(** A lexer state inside a string literal with [n] and the closing quote to
    read, and [a] pending in [buf]. *)
Definition insideString : lexer :=
  mkLexer (runes "a") (runes "hi") 1 2 Separator 1 5 true
    (mkReader (runes "n'") None) [] [].

(** A state in normal mode about to read a block comment. *)
Definition beforeComment : lexer :=
  mkLexer (runes "a") [] 0 0 Separator 1 2 false
    (mkReader (runes "x` b") None) [] [].

Lemma buf_inside_string_literal_run :
  wp (@dispatch decimalLibrary false false (rn "\"))
     (fun _ s' => buf s' = runes "a" /\ inStringLiteral s' = true /\ tokens s' = [])
     (fun _ => False) insideString /\
  wp (@dispatch decimalLibrary false false (rn "`"))
     (fun _ s' => buf s' = runes "a" /\ inStringLiteral s' = false /\ tokens s' = [])
     (fun _ => False) beforeComment.
Proof.
  split.
  - apply (proj1 (@buf_inside_string_literal decimalLibrary false false) insideString).
    + reflexivity.
    + discriminate.
  - apply (proj2 (proj2 (proj2 (@buf_inside_string_literal decimalLibrary false false)))
             beforeComment (rn "x") (runes "` b")).
    + reflexivity.
    + reflexivity.
    + discriminate.
Defined.




Lemma dot_rule_run :
  stream (@Tokenize decimalLibrary false false (runes "1.2.3")) =
  Some [number 1.2%float; op AccessorOp; number 3%float; op Separator].
Proof.
  apply (@dot_rule decimalLibrary false false); reflexivity.
Defined.

(** A state whose [buf] starts with a digit and does not parse. *)
Definition badNumber : lexer :=
  mkLexer (runes "1x") [] 0 0 Separator 1 3 false (mkReader [] None) [] [].

Lemma number_parse_error_run :
  wp (@commitClear decimalLibrary false false)
     (fun _ s' =>
        frame badNumber s' /\ buf s' = [] /\ lastKind s' = NumberLiteral /\
        tokens s' = [mkTok NumberLiteral [] 0%float (mkPos 1 1)] /\
        diag s' =
        [EvSafeErr ErrSyntax
           "parsing error in number at 1:3, strconv.ParseFloat: invalid syntax"])
     (fun _ => False) badNumber.
Proof.
  apply (proj1 (@number_parse_error decimalLibrary false false) badNumber
           0%float "strconv.ParseFloat: invalid syntax"%string);
    reflexivity.
Defined.

Lemma backslash_rule_run :
  @dispatch decimalLibrary false false (rn "\") insideString =
  Ok tt (set_colNo 6 (set_strbuf (runes "hin")
           (set_buffered (mkReader (runes "'") (Some (rn "n"))) insideString))).
Proof.
  apply (proj1 (@backslash_rule decimalLibrary false false) insideString
           (rn "n") (runes "'")); reflexivity.
Defined.

Lemma shebang_rule_run :
  readThrough (rn "010") (runes "#!ink" ++ rn "010" :: runes "x") =
  mkReader (runes "x") (Some (rn "010")).
Proof.
  apply (proj1 (proj2 (proj2 (@shebang_rule decimalLibrary false false)))
           (runes "#!ink") (runes "x")).
  vm_compute. intuition discriminate.
Defined.


(** A state in normal mode with [a] pending and the input exhausted. *)
Definition atEnd : lexer :=
  mkLexer (runes "a") [] 0 0 Separator 1 2 false (mkReader [] None) [] [].

Lemma operator_at_end_of_input_run :
  @dispatch decimalLibrary false false (rn "=") atEnd =
  Ok tt (set_buffered (mkReader [] None) atEnd).
Proof.
  apply (proj1 (@operator_at_end_of_input decimalLibrary false false) atEnd (rn "=")).
  - right. left. reflexivity.
  - reflexivity.
  - reflexivity.
Defined.

(** ** How a run ends *)

Lemma quiet_after_ensure {go : GoLibrary} s :
  quiet (lastKindAfter (lastKind s) (flushed s ++ synthesized s)) = true.
Proof.
  rewrite lastKindAfter_app. unfold synthesized.
  destruct (quiet (lastKindAfter (lastKind s) (flushed s))) eqn:Q.
  - exact Q.
  - reflexivity.
Qed.

Section Ending.
Context {go : GoLibrary}.
Variables fatalError debugLexer : bool.

Lemma commitClear_idle s :
  buf s = [] -> commitClear fatalError debugLexer s = Ok tt s.
Proof. intros B. unfold commitClear, bind, get. rewrite B. reflexivity. Qed.

Lemma ensureSeparator_idle s :
  buf s = [] -> quiet (lastKind s) = true ->
  ensureSeparator fatalError debugLexer s = Ok tt s.
Proof.
  intros B Q. unfold ensureSeparator, bind. rewrite (commitClear_idle s B).
  unfold get. destruct (lastKind s); first [reflexivity | discriminate].
Qed.

(** The state in which a run that returns leaves the lexer. *)
Definition Flushed (s : lexer) : Prop :=
  buf s = [] /\ pending (buffered s) = [] /\
  lastKind s = lastKindAfter Separator (tokens s) /\ quiet (lastKind s) = true.

Lemma Tokenize_final unbuffered :
  wp (skipShebang ;;
      mainLoop fatalError debugLexer (S (List.length unbuffered)) ;;
      ensureSeparator fatalError debugLexer)
     (fun _ s => Flushed s) (fun _ => True) (initial unbuffered).
Proof.
  eapply wp_call; [apply skipShebang_spec| |intros ? []].
  intros ? s1 [U1 S1].
  assert (P1 : Paid fatalError debugLexer unbuffered s1).
  { cbn in S1. pose proof (commas_suffix _ _ S1).
    exists 0%nat. split; [|lia].
    apply (Stream_unchanged fatalError debugLexer 0 (initial unbuffered)); [|exact U1].
    repeat split. constructor. cbn. lia. }
  apply suffix_length in S1. cbn in S1.
  eapply wp_call;
    [apply (mainLoop_rule fatalError debugLexer
              (Paid fatalError debugLexer unbuffered) (fun _ => True))
    | |auto].
  - intros s c rest PS Hp.
    eapply wp_conseq; [apply (round_stream fatalError debugLexer); eauto|auto|auto].
  - exact P1.
  - lia.
  - intros ? s2 (s0 & (n & (K & _) & _) & _ & ->).
    eapply wp_conseq; [apply ensureSeparator_spec| |auto].
    intros ? s3 [((_ & _ & _ & _ & _ & _ & R) & T & L & _) B].
    lexer_simpl. unfold Flushed. rewrite R, L, T. lexer_simpl. rewrite K.
    repeat split; auto.
    + rewrite <- lastKindAfter_app. reflexivity.
    + rewrite <- K. apply (quiet_after_ensure (set_buffered (mkReader [] None) s0)).
Qed.

(** When Tokenize returns, the input is used up, [buf] has been committed,
    and the stream does not stop at a token that still awaits a Separator:
    the kind of its last token (Separator for an empty stream) is one after
    which [ensureSeparator] sends nothing. *)
Theorem returned_stream_is_closed unbuffered s :
  Tokenize fatalError debugLexer unbuffered = Ok tt s ->
  buf s = [] /\ pending (buffered s) = [] /\
  quiet (lastKindAfter Separator (tokens s)) = true.
Proof.
  intros E. pose proof (Tokenize_final unbuffered) as H. unfold wp in H.
  unfold Tokenize in E. rewrite E in H. destruct H as (B & P & L & Q).
  rewrite <- L. auto.
Qed.

(** Running [commitClear] or [ensureSeparator] a second time changes
    nothing; and [commitClear] before [ensureSeparator] is absorbed. *)
Theorem flush_twice s :
  (commitClear fatalError debugLexer ;; commitClear fatalError debugLexer) s =
  commitClear fatalError debugLexer s /\
  (ensureSeparator fatalError debugLexer ;; ensureSeparator fatalError debugLexer) s =
  ensureSeparator fatalError debugLexer s /\
  (commitClear fatalError debugLexer ;; ensureSeparator fatalError debugLexer) s =
  ensureSeparator fatalError debugLexer s.
Proof.
  pose proof (commitClear_spec fatalError debugLexer s) as HC.
  pose proof (ensureSeparator_spec fatalError debugLexer s) as HE.
  unfold wp in HC, HE. split; [|split].
  - unfold bind. destruct (commitClear fatalError debugLexer s) as [[] s1|s1|];
      try reflexivity.
    apply commitClear_idle. apply HC.
  - unfold bind at 1.
    destruct (ensureSeparator fatalError debugLexer s) as [[] s1|s1|];
      try reflexivity.
    destruct HE as [(_ & _ & L & _) B].
    apply ensureSeparator_idle; [exact B|].
    rewrite L. apply quiet_after_ensure.
  - unfold ensureSeparator. unfold bind.
    destruct (commitClear fatalError debugLexer s) as [[] s1|s1|];
      try reflexivity.
    rewrite (commitClear_idle s1); [reflexivity|apply HC].
Qed.

End Ending.

Section NonFatal.
Context {go : GoLibrary}.
Variable debugLexer : bool.

Lemma dispatch_nonfatal char s :
  wp (dispatch false debugLexer char) (fun _ _ => True) (fun _ => False) s.
Proof.
  dispatch_walk. all: first [exact I | discriminate].
Qed.

(** With [fatalError] false Tokenize never stops early: whatever the input,
    it reads it to the end, runs the final flush and returns. *)
Theorem nonfatal_run_returns unbuffered :
  exists s, Tokenize false debugLexer unbuffered = Ok tt s.
Proof.
  assert (H : wp (skipShebang ;;
                  mainLoop false debugLexer (S (List.length unbuffered)) ;;
                  ensureSeparator false debugLexer)
                 (fun _ _ => True) (fun _ => False) (initial unbuffered)).
  { eapply wp_call; [apply skipShebang_spec| |intros ? []].
    intros ? s1 [_ H1]. cbn in H1. apply suffix_length in H1.
    eapply wp_call;
      [apply (mainLoop_rule false debugLexer (fun _ => True) (fun _ => False))
      | |auto].
    - intros s c rest _ _.
      eapply wp_call; [apply wp_and; [apply dispatch_nonfatal|apply dispatch_progress]| |].
      + intros ? s2 [_ S2]. unfold incColNo. wp_pure. lexer_simpl.
        split; [exact I|]. apply suffix_length in S2. exact S2.
      + intros s2 [[] _].
    - exact I.
    - lia.
    - intros ? s2 _.
      eapply wp_conseq; [apply ensureSeparator_spec|auto|].
      intros s3 (_ & _ & F & _). discriminate. }
  unfold Tokenize. unfold wp in H.
  destruct ((skipShebang;; mainLoop false debugLexer (S (List.length unbuffered));;
             ensureSeparator false debugLexer) (initial unbuffered))
    as [[] s|s|]; [eauto|contradiction|contradiction].
Qed.

End NonFatal.

(** The state in which the run of [a=] ends. *)
Definition afterWord : lexer :=
  mkLexer [] [] 0 0 Separator 1 3 false (mkReader [] None)
    [mkTok Identifier (runes "a") 0%float (mkPos 1 2); charTok Separator (mkPos 1 3)]
    [].

Lemma returned_stream_is_closed_run :
  buf afterWord = [] /\ pending (buffered afterWord) = [] /\
  quiet (lastKindAfter Separator (tokens afterWord)) = true.
Proof.
  apply (@returned_stream_is_closed decimalLibrary false false (runes "a=")).
  vm_compute. reflexivity.
Defined.

(** ** Input that holds only white space *)

Section Blank.
Context {go : GoLibrary}.
Variables fatalError debugLexer : bool.

(** Nothing pending, nothing sent, nothing logged. *)
Definition Idle (s : lexer) : Prop :=
  buf s = [] /\ lastKind s = Separator /\ inStringLiteral s = false /\
  tokens s = [] /\ diag s = [].

Lemma space_not c k : IsSpace c = true -> IsSpace k = false -> (c =? k) = false.
Proof.
  intros Hc Hk. destruct (c =? k) eqn:E; [|reflexivity].
  apply Z.eqb_eq in E. congruence.
Qed.

Lemma dispatch_space c s :
  IsSpace c = true -> Idle s ->
  exists s', dispatch fatalError debugLexer c s = Ok tt s' /\ Idle s' /\
             buffered s' = buffered s.
Proof.
  intros Hc (B & K & S & T & D).
  assert (Q : quiet (lastKind s) = true) by (rewrite K; reflexivity).
  unfold dispatch, bind, get. rewrite S.
  rewrite (space_not c (rn "'") Hc eq_refl), (space_not c (rn "`") Hc eq_refl).
  destruct (c =? rn "010").
  - rewrite (ensureSeparator_idle fatalError debugLexer s B Q).
    eexists. split; [reflexivity|]. unfold Idle. lexer_simpl. repeat split; auto.
  - rewrite Hc, (commitClear_idle fatalError debugLexer s B).
    eexists. split; [reflexivity|]. unfold Idle. repeat split; auto.
Qed.

Lemma mainLoop_space l : forall fuel s,
  Forall (fun c => IsSpace c = true) l -> pending (buffered s) = l -> Idle s ->
  (List.length l < fuel)%nat ->
  exists s', mainLoop fatalError debugLexer fuel s = Ok tt s' /\ Idle s'.
Proof.
  induction l as [|c l IH]; intros fuel s Hl Hp Hs Hf;
    (destruct fuel as [|fuel]; [cbn in Hf; lia|]);
    cbn [mainLoop]; unfold bind at 1, ReadRune; rewrite Hp.
  - eexists. split; [reflexivity|]. exact Hs.
  - inversion Hl as [|? ? Hc Hl']; subst.
    destruct (dispatch_space c (set_buffered (mkReader l (Some c)) s) Hc Hs)
      as (s1 & E1 & I1 & R1).
    unfold bind at 1. rewrite E1. unfold bind at 1, incColNo, modify.
    apply IH; [exact Hl'| |exact I1|cbn in Hf; lia].
    lexer_simpl. rewrite R1. reflexivity.
Qed.

(** An input of white space alone (blanks, tabs, newlines, and whatever
    else unicode.IsSpace accepts) yields no token, not even a Separator for
    its newlines or for the final flush, and no log entry: [lastKind] starts
    as Separator. *)
Theorem blank_input_sends_nothing unbuffered :
  Forall (fun c => IsSpace c = true) unbuffered ->
  exists s, Tokenize fatalError debugLexer unbuffered = Ok tt s /\
            tokens s = [] /\ diag s = [].
Proof.
  intros Hl. unfold Tokenize.
  assert (E : skipShebang (initial unbuffered) = Ok tt (initial unbuffered)).
  { unfold skipShebang, bind, get. cbn [initial buffered pending].
    destruct Hl as [|c l Hc Hl]; [reflexivity|].
    destruct l as [|c' l]; cbn [firstn gostring_eqb runes map list_ascii_of_string];
      [rewrite andb_false_r; reflexivity|].
    change (rn "#") with 35. rewrite (space_not c 35 Hc eq_refl). reflexivity. }
  unfold bind at 1. rewrite E.
  destruct (mainLoop_space unbuffered (S (List.length unbuffered)) (initial unbuffered)
              Hl eq_refl) as (s1 & E1 & B & K & S & T & D).
  { unfold Idle. cbn. auto. }
  { lia. }
  unfold bind. rewrite E1.
  rewrite (ensureSeparator_idle fatalError debugLexer s1 B); [|rewrite K; reflexivity].
  eauto.
Qed.

End Blank.

Lemma blank_input_sends_nothing_run :
  exists s, @Tokenize decimalLibrary false false (rn " " :: rn "010" :: rn "009" :: newline) = Ok tt s /\
            tokens s = [] /\ diag s = [].
Proof.
  apply (@blank_input_sends_nothing decimalLibrary false false).
  repeat constructor.
Defined.

(** ** What a token can be *)

(** The kinds the lexer sends; the others are kinds of syntax nodes. *)
Definition lexical (k : Kind) : bool :=
  match k with
  | UnaryExpr | BinaryExpr | MatchExpr | MatchClause | FunctionCall
  | ObjectLiteral | ListLiteral | FunctionLiteral => false
  | _ => true
  end.

(** The white space of Latin-1, which unicode.IsSpace decides by itself. *)
Definition latin1Space (r : rune) : bool :=
  (r =? 9) || (r =? 10) || (r =? 11) || (r =? 12) || (r =? 13)
  || (r =? 32) || (r =? 133) || (r =? 160).

(** The runes that have a case of their own in the switch of the main loop,
    the dot aside, and the Latin-1 white space. *)
Definition reserved (r : rune) : bool :=
  (r =? rn "'") || (r =? rn "`") || (r =? rn "010") || latin1Space r
  || (r =? rn "_") || (r =? rn "~") || (r =? rn "+") || (r =? rn "*")
  || (r =? rn "/") || (r =? rn "%") || (r =? rn "&") || (r =? rn "|")
  || (r =? rn "^") || (r =? rn "<") || (r =? rn ">") || (r =? rn ",")
  || (r =? rn ":") || (r =? rn "=") || (r =? rn "-")
  || (r =? rn "(") || (r =? rn ")") || (r =? rn "[") || (r =? rn "]")
  || (r =? rn "{") || (r =? rn "}").

Section WellFormed.
Context {go : GoLibrary}.
Variables fatalError debugLexer : bool.

(** The shape of a token by its kind. *)
Definition wellFormed (t : Tok) : Prop :=
  lexical (kind t) = true /\
  match kind t with
  | Identifier =>
    num t = 0%float /\ str t <> [] /\
    gostring_eqb (str t) (runes "true") = false /\
    gostring_eqb (str t) (runes "false") = false /\
    IsDigit (index0 (str t)) = false /\
    Forall (fun r => reserved r = false) (str t)
  | StringLiteral => num t = 0%float
  | NumberLiteral => str t = []
  | _ => str t = [] /\ num t = 0%float
  end.

Definition Formed (s : lexer) : Prop :=
  Forall wellFormed (tokens s) /\ Forall (fun r => reserved r = false) (buf s).

Lemma IsSpace_latin1 r : IsSpace r = false -> latin1Space r = false.
Proof.
  unfold IsSpace, latin1Space, MaxLatin1.
  destruct ((0 <=? r) && (r <=? 255)) eqn:E; [auto|]. intros _.
  apply andb_false_iff in E. rewrite !Z.leb_gt in E.
  rewrite !orb_false_iff. repeat split; apply Z.eqb_neq; lia.
Qed.

Lemma wf_flushed s :
  Forall (fun r => reserved r = false) (buf s) -> Forall wellFormed (flushed s).
Proof.
  intros P. unfold flushed, bufTok. destruct (buf s) as [|c0 cb] eqn:B; constructor; [|constructor].
  destruct (gostring_eqb (c0 :: cb) (runes "true")) eqn:E1; [repeat split|].
  destruct (gostring_eqb (c0 :: cb) (runes "false")) eqn:E2; [repeat split|].
  destruct (IsDigit (index0 (c0 :: cb))) eqn:E3; [repeat split|].
  unfold wellFormed. cbn [kind str num lexical]. repeat split; auto. discriminate.
Qed.

Lemma wf_synth s : Forall wellFormed (synthesized s).
Proof.
  unfold synthesized. destruct (quiet _); repeat constructor.
Qed.

Lemma wf_char k p : lexical k && stamped k = true -> wellFormed (charTok k p).
Proof. destruct k; cbn; intros H; try discriminate; repeat split. Qed.

Lemma wf_string sb p : wellFormed (mkTok StringLiteral sb 0%float p).
Proof. repeat split. Qed.

Lemma Formed_sends a b toks :
  Formed a -> sends fatalError debugLexer a b toks -> buf b = [] ->
  Forall wellFormed toks -> Formed b.
Proof.
  intros [T _] (_ & E & _) B W. unfold Formed. rewrite E, B.
  split; [apply Forall_app; auto|constructor].
Qed.

Lemma Formed_unchanged a b : Formed a -> unchanged a b -> Formed b.
Proof.
  intros [T P] (B & _ & _ & _ & _ & _ & E & _). unfold Formed. rewrite E, B. auto.
Qed.

Ltac formed_toks :=
  repeat first
    [ apply Forall_nil
    | apply Forall_app; split
    | apply wf_flushed;
      match goal with G : Formed _ |- _ => exact (proj2 G) end
    | apply wf_synth
    | apply Forall_cons
    | apply wf_string
    | apply wf_char; reflexivity ].

Ltac formed_step :=
  match goal with
  | H : sends _ _ ?a ?b ?toks, B : buf ?b = [], G : Formed _ |- _ =>
    let G' := fresh "G" in
    assert (G' : Formed b) by (apply (Formed_sends a b toks G H B); formed_toks);
    clear H
  | H : unchanged ?a ?b, G : Formed _ |- _ =>
    let G' := fresh "G" in
    pose proof (Formed_unchanged a b G H) as G'; clear H
  end.

Ltac formed_rune :=
  lazymatch goal with
  | |- Forall _ (runes _) => repeat constructor
  | |- Forall _ (string_of_rune ?c) =>
    unfold string_of_rune; constructor; [|constructor];
    destruct (ValidRune c); [|reflexivity];
    unfold reserved;
    rewrite (IsSpace_latin1 c) by assumption;
    repeat match goal with
           | H : (_ =? _) = false |- _ => rewrite H; clear H
           end;
    reflexivity
  end.

Ltac formed_leaf :=
  repeat formed_step;
  try match goal with
      | |- context [match lastRune ?r with Some _ => _ | None => _ end] =>
        destruct (lastRune r)
      end;
  first
    [ match goal with G : Formed _ |- _ => exact G end
    | split;
      [ match goal with G : Formed _ |- _ => exact (proj1 G) end
      | lexer_simpl; apply Forall_app; split;
        [ match goal with G : Formed _ |- _ => exact (proj2 G) end
        | formed_rune ] ] ].

Lemma dispatch_formed char s :
  Formed s ->
  wp (dispatch fatalError debugLexer char) (fun _ s' => Formed s') Formed s.
Proof.
  intros G0. dispatch_walk.
  all: formed_leaf.
Qed.

Lemma Tokenize_formed unbuffered :
  wp (skipShebang ;;
      mainLoop fatalError debugLexer (S (List.length unbuffered)) ;;
      ensureSeparator fatalError debugLexer)
     (fun _ s => Formed s) Formed (initial unbuffered).
Proof.
  eapply wp_call; [apply skipShebang_spec| |intros ? []].
  intros ? s1 [U1 S1].
  assert (F1 : Formed s1).
  { apply (Formed_unchanged (initial unbuffered)); [|exact U1].
    split; constructor. }
  apply suffix_length in S1. cbn in S1.
  eapply wp_call;
    [apply (mainLoop_rule fatalError debugLexer Formed Formed)| |auto].
  - intros s c rest G _.
    eapply wp_call;
      [apply wp_and; [apply dispatch_formed; exact G|apply dispatch_progress]| |].
    + intros ? s2 [G2 S2]. unfold incColNo. wp_pure. lexer_simpl.
      split; [exact G2|]. apply suffix_length in S2. exact S2.
    + intros s2 [G2 _]. exact G2.
  - exact F1.
  - lia.
  - intros ? s2 (s0 & G & _ & ->).
    eapply wp_conseq; [apply ensureSeparator_spec| |].
    + intros ? s3 [H3 B3].
      apply (Formed_sends (set_buffered (mkReader [] None) s0) s3 _ G H3 B3).
      formed_toks.
    + intros s3 (H3 & B3 & _).
      apply (Formed_sends (set_buffered (mkReader [] None) s0) s3 _ G H3 B3).
      formed_toks.
Qed.

(** Every token Tokenize sends has one of the kinds of the lexer, never a
    kind of syntax node; only an Identifier or a StringLiteral carries a
    text and only a NumberLiteral carries a number. *)
Theorem tokens_by_kind unbuffered :
  exists toks,
    emitted (Tokenize fatalError debugLexer unbuffered) = Some toks /\
    Forall (fun t =>
      lexical (kind t) = true /\
      (str t <> [] -> kind t = Identifier \/ kind t = StringLiteral) /\
      (num t <> 0%float -> kind t = NumberLiteral)) toks.
Proof.
  pose proof (Tokenize_formed unbuffered) as H. unfold wp in H.
  unfold Tokenize.
  destruct ((skipShebang;;
             mainLoop fatalError debugLexer (S (List.length unbuffered));;
             ensureSeparator fatalError debugLexer) (initial unbuffered))
    as [a s|s|]; [| |contradiction];
    (exists (tokens s); split; [reflexivity|];
     destruct H as [H _]; revert H; apply Forall_impl;
     intros t [L W]; split; [exact L|];
     destruct (kind t); cbn in L; try discriminate;
     split; intros N; auto; exfalso; apply N; apply W).
Qed.

(** The text of an Identifier token is never empty, is neither [true] nor
    [false], does not start with a byte that is a digit, and holds none of
    the runes the switch treats on their own (quote, backtick, underscore,
    operator and bracket runes, comma, colon) nor Latin-1 white space. *)
Theorem identifier_text unbuffered :
  exists toks,
    emitted (Tokenize fatalError debugLexer unbuffered) = Some toks /\
    Forall (fun t =>
      kind t = Identifier ->
      str t <> [] /\
      gostring_eqb (str t) (runes "true") = false /\
      gostring_eqb (str t) (runes "false") = false /\
      IsDigit (index0 (str t)) = false /\
      Forall (fun r => reserved r = false) (str t)) toks.
Proof.
  pose proof (Tokenize_formed unbuffered) as H. unfold wp in H.
  unfold Tokenize.
  destruct ((skipShebang;;
             mainLoop fatalError debugLexer (S (List.length unbuffered));;
             ensureSeparator fatalError debugLexer) (initial unbuffered))
    as [a s|s|]; [| |contradiction];
    (exists (tokens s); split; [reflexivity|];
     destruct H as [H _]; revert H; apply Forall_impl;
     intros t [L W] K; rewrite K in W; apply W).
Qed.

End WellFormed.

(** ** Two runs side by side *)

Section Simulation.
Variable strict : bool.
Variable R : lexer -> lexer -> Prop.

(** The outcome of the second run matches that of the first: both return,
    with the same value and related states, or both have been terminated in
    related states.  When [strict] is false nothing is asked of the second
    run once the first has been terminated. *)
Definition matches {A} (r1 r2 : Res A) : Prop :=
  match r1 with
  | Ok a s1 => match r2 with Ok b s2 => a = b /\ R s1 s2 | _ => False end
  | Exit s1 =>
    if strict then match r2 with Exit s2 => R s1 s2 | _ => False end
    else True
  | OutOfFuel => match r2 with OutOfFuel => True | _ => False end
  end.

Definition sim {A} (m1 m2 : M A) : Prop :=
  forall s1 s2, R s1 s2 -> matches (m1 s1) (m2 s2).

Lemma sim_bind {A B} (m1 m2 : M A) (k1 k2 : A -> M B) :
  sim m1 m2 -> (forall a, sim (k1 a) (k2 a)) -> sim (bind m1 k1) (bind m2 k2).
Proof.
  intros H K s1 s2 r. specialize (H s1 s2 r). unfold bind, matches in *.
  destruct (m1 s1) as [a s1'|s1'|].
  - destruct (m2 s2) as [b s2'|s2'|]; try contradiction.
    destruct H as [<- r']. apply (K a s1' s2' r').
  - destruct strict; [|exact I].
    destruct (m2 s2); first [contradiction | exact H].
  - destruct (m2 s2); first [contradiction | exact I].
Qed.

Lemma sim_ret {A} (a : A) : sim (ret a) (ret a).
Proof. intros s1 s2 r. split; [reflexivity|exact r]. Qed.

Lemma sim_get {A} (f : lexer -> A) :
  (forall s1 s2, R s1 s2 -> f s1 = f s2) -> sim (get f) (get f).
Proof. intros H s1 s2 r. split; [apply H, r|exact r]. Qed.

Lemma sim_modify (g : lexer -> lexer) :
  (forall s1 s2, R s1 s2 -> R (g s1) (g s2)) -> sim (modify g) (modify g).
Proof. intros H s1 s2 r. split; [reflexivity|apply H, r]. Qed.

Lemma sim_if {A} (b : bool) (m1 m2 n1 n2 : M A) :
  (b = true -> sim m1 n1) -> (b = false -> sim m2 n2) ->
  sim (if b then m1 else m2) (if b then n1 else n2).
Proof. destruct b; auto. Qed.

End Simulation.

Ltac sim_step side leaves :=
  lazymatch goal with
  | |- sim _ _ (let (_, _) := ?p in _) (let (_, _) := ?p in _) => destruct p
  | |- sim _ _ (match ?r with Some _ => _ | None => _ end)
               (match ?r with Some _ => _ | None => _ end) => destruct r
  | |- sim _ _ (match ?r with [] => _ | _ :: _ => _ end)
               (match ?r with [] => _ | _ :: _ => _ end) => destruct r
  | |- sim _ _ (if ?b then _ else _) (if ?b then _ else _) =>
    apply sim_if; intros ?
  | |- sim _ _ (bind _ _) (bind _ _) => apply sim_bind; [|intros ?]
  | |- sim _ _ (ret _) (ret _) => apply sim_ret
  | |- sim _ _ (get _) (get _) => apply sim_get; side
  | |- sim _ _ (modify _) (modify _) => apply sim_modify; side
  | |- _ => leaves
  end.

(** *** The debug flag *)

Definition isDebug (ev : LogEvent) : bool :=
  match ev with EvDebug _ => true | _ => false end.

(** The tokens of the debug lines of a log. *)
Definition debugs (evs : list LogEvent) : list Tok :=
  flat_map (fun ev => match ev with EvDebug t => [t] | _ => [] end) evs.

(** A log without its debug lines. *)
Definition reports (evs : list LogEvent) : list LogEvent :=
  filter (fun ev => negb (isDebug ev)) evs.

Definition undebug (s : lexer) : lexer := set_diag (reports (diag s)) s.

(** A state of the run with [debugLexer] set and the state of the run
    without it at the same point. *)
Definition Traced (s1 s2 : lexer) : Prop :=
  s2 = undebug s1 /\ debugs (diag s1) = tokens s1.

Lemma reports_app a b : reports (a ++ b) = reports a ++ reports b.
Proof. apply filter_app. Qed.

Lemma debugs_app a b : debugs (a ++ b) = debugs a ++ debugs b.
Proof. apply flat_map_app. Qed.

Ltac traced_side :=
  intros ? ? [-> ?]; first [reflexivity | split; [reflexivity|assumption]].

Ltac traced_prim :=
  intros s1 s2 [-> T]; unfold matches, Traced, undebug;
  cbn [simpleCommit bind modify LogDebug LogErr LogSafeErr ret];
  unfold set_tokens, set_lastKind, set_diag; lexer_simpl;
  rewrite ?reports_app, ?debugs_app, ?T;
  cbn [reports debugs filter flat_map isDebug negb app];
  rewrite ?app_nil_r; repeat split; try reflexivity; try assumption.

Section DebugFlag.
Context {go : GoLibrary}.
Variable fatalError : bool.

Local Abbreviation Sim := (sim true Traced).

Lemma debug_simpleCommit tok :
  Sim (simpleCommit true tok) (simpleCommit false tok).
Proof. unfold simpleCommit. traced_prim. Qed.

Lemma debug_LogErr r msg : Sim (LogErr r msg) (LogErr r msg).
Proof. traced_prim. Qed.

Lemma debug_LogSafeErr r msg : Sim (LogSafeErr r msg) (LogSafeErr r msg).
Proof. unfold LogSafeErr. traced_prim. Qed.

Lemma debug_ReadRune : Sim ReadRune ReadRune.
Proof.
  intros s1 s2 [-> T]. unfold ReadRune, matches, Traced, undebug. lexer_simpl.
  destruct (pending (buffered s1)); cbv beta iota;
    (split; [reflexivity|split; [reflexivity|exact T]]).
Qed.

Lemma debug_UnreadRune : Sim UnreadRune UnreadRune.
Proof.
  intros s1 s2 [-> T]. unfold UnreadRune, matches, Traced, undebug. lexer_simpl.
  destruct (lastRune (buffered s1)); cbv beta iota;
    (split; [reflexivity|split; [reflexivity|exact T]]).
Qed.

Ltac debug_leaf :=
  idtac; lazymatch goal with
  | |- sim _ _ (simpleCommit _ _) _ => apply debug_simpleCommit
  | |- sim _ _ (LogErr _ _) _ => apply debug_LogErr
  | |- sim _ _ (LogSafeErr _ _) _ => apply debug_LogSafeErr
  | |- sim _ _ ReadRune _ => apply debug_ReadRune
  | |- sim _ _ UnreadRune _ => apply debug_UnreadRune
  end.

Lemma debug_commitClear :
  Sim (commitClear fatalError true) (commitClear fatalError false).
Proof.
  unfold commitClear, simpleCommitChar.
  repeat sim_step traced_side debug_leaf.
Qed.

Lemma debug_commit tok :
  Sim (commit fatalError true tok) (commit fatalError false tok).
Proof.
  unfold commit. apply sim_bind; [apply debug_commitClear|intros _; apply debug_simpleCommit].
Qed.

Lemma debug_commitChar k :
  Sim (commitChar fatalError true k) (commitChar fatalError false k).
Proof.
  unfold commitChar.
  repeat sim_step traced_side ltac:(apply debug_commit).
Qed.

Lemma debug_ensureSeparator :
  Sim (ensureSeparator fatalError true) (ensureSeparator fatalError false).
Proof.
  unfold ensureSeparator.
  apply sim_bind; [apply debug_commitClear|intros _].
  apply sim_bind; [apply sim_get; traced_side|intros k].
  destruct k; first [apply sim_ret | apply debug_commitChar].
Qed.

Lemma debug_blockComment l : Sim (blockComment l) (blockComment l).
Proof.
  induction l as [|c l IH]; cbn [blockComment];
    unfold incLineNo, incColNo, resetColNo.
  - apply sim_modify. traced_side.
  - repeat sim_step traced_side ltac:(exact IH).
Qed.

Ltac debug_call :=
  idtac; lazymatch goal with
  | |- sim _ _ (commitClear _ _) _ => apply debug_commitClear
  | |- sim _ _ (commit _ _ _) _ => apply debug_commit
  | |- sim _ _ (commitChar _ _ _) _ => apply debug_commitChar
  | |- sim _ _ (ensureSeparator _ _) _ => apply debug_ensureSeparator
  | |- sim _ _ (blockComment _) _ => apply debug_blockComment
  | |- sim _ _ ReadRune _ => apply debug_ReadRune
  | |- sim _ _ UnreadRune _ => apply debug_UnreadRune
  end.

Lemma debug_dispatch c :
  Sim (dispatch fatalError true c) (dispatch fatalError false c).
Proof.
  unfold dispatch, incLineNo, incColNo, resetColNo, appendStrbuf, appendBuf.
  repeat sim_step traced_side debug_call.
Qed.

Lemma debug_mainLoop fuel :
  Sim (mainLoop fatalError true fuel) (mainLoop fatalError false fuel).
Proof.
  induction fuel as [|fuel IH]; [intros s1 s2 _; exact I|].
  cbn [mainLoop]. unfold incColNo.
  repeat sim_step traced_side
    ltac:(first [exact IH | apply debug_dispatch | apply debug_ReadRune]).
Qed.

Lemma debug_Tokenize unbuffered :
  matches true Traced (Tokenize fatalError true unbuffered)
    (Tokenize fatalError false unbuffered).
Proof.
  unfold Tokenize.
  assert (H : Sim (skipShebang ;; mainLoop fatalError true (S (List.length unbuffered)) ;;
                   ensureSeparator fatalError true)
                  (skipShebang ;; mainLoop fatalError false (S (List.length unbuffered)) ;;
                   ensureSeparator fatalError false)).
  { unfold skipShebang, incLineNo.
    repeat sim_step traced_side
      ltac:(first [apply debug_mainLoop | apply debug_ensureSeparator]). }
  apply H. split; reflexivity.
Qed.

(** With [debugLexer] set, the debug lines of the log are the tokens sent,
    one line a token, in the order of the stream. *)
Theorem debug_log_follows_stream unbuffered :
  exists toks evs,
    emitted (Tokenize fatalError true unbuffered) = Some toks /\
    diagnostics (Tokenize fatalError true unbuffered) = Some evs /\
    debugs evs = toks.
Proof.
  pose proof (debug_Tokenize unbuffered) as H. unfold matches in H.
  destruct (Tokenize_returns fatalError true unbuffered) as [toks E].
  destruct (Tokenize fatalError true unbuffered) as [a s1|s1|];
    destruct (Tokenize fatalError false unbuffered) as [b s2|s2|];
    try contradiction; try discriminate;
    (exists (tokens s1), (diag s1); repeat split; apply H).
Qed.

(** [debugLexer] changes the log and nothing else: with and without it
    Tokenize ends the same way (it returns, or the fatal path terminates the
    process), has sent the same tokens, and has logged the same reports. *)
Theorem debug_flag_only_logs unbuffered :
  emitted (Tokenize fatalError true unbuffered) =
  emitted (Tokenize fatalError false unbuffered) /\
  option_map reports (diagnostics (Tokenize fatalError true unbuffered)) =
  diagnostics (Tokenize fatalError false unbuffered) /\
  ((exists s, Tokenize fatalError true unbuffered = Ok tt s) <->
   (exists s, Tokenize fatalError false unbuffered = Ok tt s)).
Proof.
  pose proof (debug_Tokenize unbuffered) as H. unfold matches in H.
  destruct (Tokenize fatalError true unbuffered) as [[] s1|s1|];
    destruct (Tokenize fatalError false unbuffered) as [[] s2|s2|];
    try contradiction.
  - destruct H as [_ [-> _]]. repeat split; eauto.
  - destruct H as [-> _]. repeat split; intros [s E]; discriminate.
  - repeat split; intros [s E]; discriminate.
Qed.

End DebugFlag.

(** ** The loop, one round at a time *)

Section Rounds.
Context {go : GoLibrary}.
Variables fatalError debugLexer : bool.

(** What is left to run once the reader has been set up: the main loop and
    the final flush. *)
Definition run (fuel : nat) : M unit :=
  mainLoop fatalError debugLexer fuel ;; ensureSeparator fatalError debugLexer.

Lemma run_nil fuel s :
  pending (buffered s) = [] ->
  run (S fuel) s =
  ensureSeparator fatalError debugLexer (set_buffered (mkReader [] None) s).
Proof.
  intros Hp. unfold run. cbn [mainLoop]. unfold bind, ReadRune. rewrite Hp.
  reflexivity.
Qed.

Lemma run_cons fuel s c rest :
  pending (buffered s) = c :: rest ->
  run (S fuel) s =
  match dispatch fatalError debugLexer c (set_buffered (mkReader rest (Some c)) s) with
  | Ok _ s' => run fuel (set_colNo (wrap (colNo s' + 1)) s')
  | Exit s' => Exit s'
  | OutOfFuel => OutOfFuel
  end.
Proof.
  intros Hp. unfold run. cbn [mainLoop]. unfold bind, ReadRune. rewrite Hp.
  destruct (dispatch fatalError debugLexer c _); reflexivity.
Qed.

Lemma Tokenize_run unbuffered :
  Tokenize fatalError debugLexer unbuffered =
  match skipShebang (initial unbuffered) with
  | Ok _ s => run (S (List.length unbuffered)) s
  | Exit s => Exit s
  | OutOfFuel => OutOfFuel
  end.
Proof. reflexivity. Qed.

(** A round sends tokens and takes none back; when it ends the process it
    has sent none. *)
Lemma dispatch_grows c s :
  wp (dispatch fatalError debugLexer c)
     (fun _ s' => exists more, tokens s' = tokens s ++ more)
     (fun s' => tokens s' = tokens s) s.
Proof.
  dispatch_walk.
  all: leaf.
  all: try congruence.
  all: repeat match goal with
              | H : tokens ?x = _ |- context [tokens ?x] => rewrite H
              end.
  all: rewrite <- ?app_assoc, ?app_nil_r; eauto.
  all: exists []; rewrite app_nil_r; reflexivity.
Qed.

End Rounds.

(** *** The fatal flag *)

Section FatalFlag.
Context {go : GoLibrary}.
Variable debugLexer : bool.

(** The run with [fatalError] set against the run without it, from the same
    state: as long as the first has not been terminated they do the same. *)
Local Abbreviation Sim := (sim false eq).

Lemma fatal_same {A} (m : M A) : Sim m m.
Proof.
  intros s1 s2 ->. unfold matches. destruct (m s2); auto.
Qed.

Ltac eq_side := intros ? ? ->; reflexivity.

Lemma fatal_commitClear :
  Sim (commitClear true debugLexer) (commitClear false debugLexer).
Proof.
  unfold commitClear.
  repeat sim_step eq_side
    ltac:(idtac; lazymatch goal with
                 | |- sim _ _ ?m ?m => apply fatal_same
                 | |- _ => intros ? ? _; exact I
                 end).
Qed.

Lemma fatal_commit tok :
  Sim (commit true debugLexer tok) (commit false debugLexer tok).
Proof.
  unfold commit. apply sim_bind; [apply fatal_commitClear|intros _; apply fatal_same].
Qed.

Lemma fatal_commitChar k :
  Sim (commitChar true debugLexer k) (commitChar false debugLexer k).
Proof.
  unfold commitChar.
  repeat sim_step eq_side ltac:(apply fatal_commit).
Qed.

Lemma fatal_ensureSeparator :
  Sim (ensureSeparator true debugLexer) (ensureSeparator false debugLexer).
Proof.
  unfold ensureSeparator.
  apply sim_bind; [apply fatal_commitClear|intros _].
  apply sim_bind; [apply fatal_same|intros k].
  destruct k; first [apply sim_ret | apply fatal_commitChar].
Qed.

Ltac fatal_call :=
  idtac;
  lazymatch goal with
  | |- sim _ _ (commitClear _ _) _ => apply fatal_commitClear
  | |- sim _ _ (commit _ _ _) _ => apply fatal_commit
  | |- sim _ _ (commitChar _ _ _) _ => apply fatal_commitChar
  | |- sim _ _ (ensureSeparator _ _) _ => apply fatal_ensureSeparator
  | |- sim _ _ ?m ?m => apply fatal_same
  end.

Lemma fatal_dispatch c :
  Sim (dispatch true debugLexer c) (dispatch false debugLexer c).
Proof.
  unfold dispatch, incLineNo, incColNo, resetColNo, appendStrbuf, appendBuf.
  repeat sim_step eq_side fatal_call.
Qed.

(** Without [fatalError] the rest of a run returns, and it only adds to the
    stream. *)
Lemma nonfatal_run fuel s :
  (List.length (pending (buffered s)) < fuel)%nat ->
  exists s' more, run false debugLexer fuel s = Ok tt s' /\
                  tokens s' = tokens s ++ more.
Proof.
  intros Hf.
  assert (H : wp (run false debugLexer fuel)
                 (fun _ s' => exists more, tokens s' = tokens s ++ more)
                 (fun _ => False) s).
  { unfold run.
    eapply wp_call;
      [apply (mainLoop_rule false debugLexer
                (fun x => exists more, tokens x = tokens s ++ more) (fun _ => False))
      | |auto].
    - intros x c rest [more E] _.
      eapply wp_call;
        [apply wp_and;
         [apply wp_and; [apply dispatch_grows|apply dispatch_nonfatal]
         |apply dispatch_progress]| |].
      + intros ? x2 [[[more2 E2] _] S2]. unfold incColNo. wp_pure. lexer_simpl.
        split; [|apply suffix_length in S2; exact S2].
        exists (more ++ more2). rewrite E2. lexer_simpl. rewrite E, app_assoc.
        reflexivity.
      + intros x2 [[_ []] _].
    - exists []. rewrite app_nil_r. reflexivity.
    - exact Hf.
    - intros ? x2 (x0 & [more E] & _ & ->).
      eapply wp_conseq; [apply ensureSeparator_spec| |].
      + intros ? x3 [(_ & T & _) _]. rewrite T. lexer_simpl. rewrite E, <- app_assoc.
        eauto.
      + intros x3 (_ & _ & F & _). discriminate. }
  unfold wp in H. destruct (run false debugLexer fuel s) as [[] s'|s'|];
    [|contradiction|contradiction].
  destruct H as [more E]. eauto.
Qed.

Lemma fatal_run fuel : forall s,
  (List.length (pending (buffered s)) < fuel)%nat ->
  match run true debugLexer fuel s with
  | Ok a s1 => run false debugLexer fuel s = Ok a s1
  | Exit s1 =>
    exists s2 more, run false debugLexer fuel s = Ok tt s2 /\
                    tokens s2 = tokens s1 ++ more
  | OutOfFuel => False
  end.
Proof.
  induction fuel as [|fuel IH]; intros s Hf; [lia|].
  destruct (pending (buffered s)) as [|c rest] eqn:Hp.
  - rewrite !(run_nil _ _ fuel s Hp).
    set (s0 := set_buffered (mkReader [] None) s).
    pose proof (fatal_ensureSeparator s0 s0 eq_refl) as Hs.
    pose proof (ensureSeparator_spec true debugLexer s0) as H1.
    pose proof (ensureSeparator_spec false debugLexer s0) as H2.
    unfold matches, wp in *.
    destruct (ensureSeparator true debugLexer s0) as [a s1|s1|].
    + destruct (ensureSeparator false debugLexer s0); try contradiction.
      destruct Hs as [<- <-]. reflexivity.
    + destruct (ensureSeparator false debugLexer s0) as [[] s2|s2|].
      * destruct H1 as ((_ & T1 & _) & _). destruct H2 as ((_ & T2 & _) & _).
        rewrite app_nil_r in T1.
        exists s2, (flushed s0 ++ synthesized s0). split; [reflexivity|].
        rewrite T2, T1. reflexivity.
      * destruct H2 as (_ & _ & F & _). discriminate.
      * contradiction.
    + contradiction.
  - assert (Hf' := Hf). rewrite <- Hp in Hf'.
    destruct (nonfatal_run (S fuel) s Hf') as (s2 & more & E2 & T2). clear Hf'.
    rewrite !(run_cons _ _ fuel s c rest Hp) in *.
    set (s0 := set_buffered (mkReader rest (Some c)) s) in *.
    pose proof (fatal_dispatch c s0 s0 eq_refl) as Hs.
    pose proof (dispatch_grows true debugLexer c s0) as H1.
    pose proof (dispatch_progress true debugLexer c s0) as P1.
    unfold matches, wp in *.
    destruct (dispatch true debugLexer c s0) as [a s1|s1|].
    + destruct (dispatch false debugLexer c s0); try contradiction.
      destruct Hs as [<- <-]. apply IH. lexer_simpl.
      apply suffix_length in P1. subst s0. lexer_simpl.
      cbn [List.length] in Hf. lia.
    + exists s2, more. split; [exact E2|]. rewrite T2, H1. reflexivity.
    + contradiction.
Qed.

(** [fatalError] only cuts a run short.  The stream sent with the flag set
    is a prefix of the stream sent without it, and when the run with the flag
    returns, the run without it has done exactly the same. *)
Theorem fatal_flag_only_truncates unbuffered :
  (exists sent more,
     emitted (Tokenize true debugLexer unbuffered) = Some sent /\
     emitted (Tokenize false debugLexer unbuffered) = Some (sent ++ more)) /\
  (forall s, Tokenize true debugLexer unbuffered = Ok tt s ->
             Tokenize false debugLexer unbuffered = Ok tt s).
Proof.
  rewrite !Tokenize_run.
  pose proof (skipShebang_spec (initial unbuffered)) as H0. unfold wp in H0.
  destruct (skipShebang (initial unbuffered)) as [[] s0|s0|]; try contradiction.
  destruct H0 as [_ S0]. apply suffix_length in S0. cbn in S0.
  assert (Hf : (List.length (pending (buffered s0)) < S (List.length unbuffered))%nat)
    by lia.
  pose proof (fatal_run (S (List.length unbuffered)) s0 Hf) as H.
  destruct (run true debugLexer (S (List.length unbuffered)) s0) as [[] s1|s1|];
    [| |contradiction].
  - rewrite H. split.
    + exists (tokens s1), []. rewrite app_nil_r. split; reflexivity.
    + intros s E. exact E.
  - destruct H as (s2 & more & -> & T). split.
    + exists (tokens s1), more. cbn. rewrite T. split; reflexivity.
    + intros s E. discriminate.
Qed.

End FatalFlag.

(** ** String literals *)

(** The text of a string literal with body [l]: a backslash stands for the
    rune after it, every other rune for itself. *)
Fixpoint unescape (l : list rune) : gostring :=
  match l with
  | [] => []
  | c :: l' =>
    if c =? rn "\" then
      match l' with
      | [] => []
      | e :: l'' => string_of_rune e ++ unescape l''
      end
    else string_of_rune c ++ unescape l'
  end.

(** [l] can stand between two quotes: it holds no quote but after a
    backslash, and its last backslash has a rune to stand for. *)
Fixpoint closedBody (l : list rune) : bool :=
  match l with
  | [] => true
  | c :: l' =>
    if c =? rn "\" then
      match l' with
      | [] => false
      | _ :: l'' => closedBody l''
      end
    else negb (c =? rn "'") && closedBody l'
  end.

(** Inside a literal only the text, the counters and the reader move. *)
Definition scanned (s s' : lexer) : Prop :=
  buf s' = buf s /\ strbufStartLine s' = strbufStartLine s /\
  strbufStartCol s' = strbufStartCol s /\ lastKind s' = lastKind s /\
  inStringLiteral s' = inStringLiteral s /\ tokens s' = tokens s /\
  diag s' = diag s.

Section Literals.
Context {go : GoLibrary}.
Variables fatalError debugLexer : bool.

Local Abbreviation Run := (run fatalError debugLexer).

Lemma dispatch_in_string c s :
  inStringLiteral s = true -> (c =? rn "'") = false -> (c =? rn "\") = false ->
  dispatch fatalError debugLexer c s =
  Ok tt (if c =? rn "010"
         then set_strbuf (strbuf s ++ string_of_rune c)
                (set_colNo 0 (set_lineNo (wrap (lineNo s + 1)) s))
         else set_strbuf (strbuf s ++ string_of_rune c) s).
Proof.
  intros Hin Hq Hb. unfold dispatch, bind, get. rewrite Hin, Hq.
  destruct (c =? rn "010"); [reflexivity|]. rewrite Hb. reflexivity.
Qed.

Lemma dispatch_escape e rest s :
  inStringLiteral s = true -> pending (buffered s) = e :: rest ->
  dispatch fatalError debugLexer (rn "\") s =
  Ok tt (set_colNo (wrap (colNo s + 1))
           (set_strbuf (strbuf s ++ string_of_rune e)
              (set_buffered (mkReader rest (Some e)) s))).
Proof.
  intros Hin Hp. unfold dispatch. cbn [bind get]. rewrite Hin. decide_tests.
  unfold bind, ReadRune. rewrite Hp. reflexivity.
Qed.

Lemma scan_body n : forall body,
  (List.length body <= n)%nat -> forall fuel s rest,
  closedBody body = true -> inStringLiteral s = true ->
  pending (buffered s) = body ++ rest ->
  exists fuel' s',
    Run (List.length body + fuel) s = Run fuel' s' /\ (fuel <= fuel')%nat /\
    scanned s s' /\ strbuf s' = strbuf s ++ unescape body /\
    pending (buffered s') = rest.
Proof.
  assert (Hnil : forall fuel s rest, pending (buffered s) = [] ++ rest ->
    exists fuel' s',
      Run (List.length (@nil rune) + fuel) s = Run fuel' s' /\ (fuel <= fuel')%nat /\
      scanned s s' /\ strbuf s' = strbuf s ++ unescape [] /\
      pending (buffered s') = rest).
  { intros fuel s rest Hp. exists fuel, s. cbn. rewrite app_nil_r.
    unfold scanned. repeat split; auto. }
  induction n as [|n IH]; intros body Hn fuel s rest Hc Hin Hp.
  - destruct body; [apply Hnil, Hp|cbn in Hn; lia].
  - destruct body as [|c body]; [apply Hnil, Hp|].
    cbn [closedBody] in Hc. cbn [unescape].
    destruct (c =? rn "\") eqn:Eb.
    + destruct body as [|e body]; [discriminate|].
      apply Z.eqb_eq in Eb. subst c.
      cbn [List.length Nat.add app] in *.
      rewrite (run_cons _ _ _ s _ _ Hp).
      rewrite (dispatch_escape e (body ++ rest)); [|exact Hin|reflexivity].
      rewrite <- Nat.add_succ_r.
      match goal with |- context [Run _ ?s1] => set (s' := s1) end.
      destruct (IH body ltac:(lia) (S fuel) s' rest Hc Hin eq_refl)
        as (fuel' & s2 & E & L & (S1 & S2 & S3 & S4 & S5 & S6 & S7) & T & P).
      exists fuel', s2. split; [exact E|]. split; [lia|].
      subst s'. lexer_simpl. unfold scanned.
      rewrite T, <- app_assoc. repeat split; assumption.
    + apply andb_prop in Hc. destruct Hc as [Hq Hc].
      apply negb_true_iff in Hq.
      cbn [List.length Nat.add app] in *.
      rewrite (run_cons _ _ _ s _ _ Hp).
      rewrite (dispatch_in_string c); [|exact Hin|exact Hq|exact Eb].
      match goal with |- context [Run _ ?s1] => set (s' := s1) end.
      assert (Hin' : inStringLiteral s' = true)
        by (subst s'; destruct (c =? rn "010"); exact Hin).
      assert (Hp' : pending (buffered s') = body ++ rest)
        by (subst s'; destruct (c =? rn "010"); reflexivity).
      destruct (IH body ltac:(lia) fuel s' rest Hc Hin' Hp')
        as (fuel' & s2 & E & L & (S1 & S2 & S3 & S4 & S5 & S6 & S7) & T & P).
      exists fuel', s2. split; [exact E|]. split; [lia|].
      subst s'. unfold scanned.
      destruct (c =? rn "010"); lexer_simpl; rewrite T, <- app_assoc;
        repeat split; assumption.
Qed.

Lemma dispatch_open s :
  inStringLiteral s = false ->
  dispatch fatalError debugLexer (rn "'") s =
  Ok tt (set_inStringLiteral true
           (set_strbufStart (lineNo s) (colNo s) (set_strbuf [] s))).
Proof.
  intros Hin. unfold dispatch. cbn [bind get]. rewrite Hin. decide_tests.
  reflexivity.
Qed.

Lemma simpleCommit_sends tok s :
  exists s', simpleCommit debugLexer tok s = Ok tt s' /\
             tokens s' = tokens s ++ [tok] /\ lastKind s' = kind tok /\
             buf s' = buf s /\ buffered s' = buffered s /\ cursor s' = cursor s /\
             diag s' = diag s ++ (if debugLexer then [EvDebug tok] else []).
Proof.
  unfold simpleCommit, bind, modify, LogDebug, ret.
  destruct debugLexer; eexists; (split; [reflexivity|]); lexer_simpl;
    rewrite ?app_nil_r; repeat split.
Qed.

Lemma dispatch_close s :
  inStringLiteral s = true -> buf s = [] ->
  exists s',
    dispatch fatalError debugLexer (rn "'") s = Ok tt s' /\
    tokens s' =
    tokens s ++ [mkTok StringLiteral (strbuf s) 0%float
                   (mkPos (strbufStartLine s) (strbufStartCol s))] /\
    lastKind s' = StringLiteral /\ buf s' = [] /\
    buffered s' = buffered s.
Proof.
  intros Hin B. unfold dispatch. cbn [bind get]. rewrite Hin. decide_tests.
  unfold commit, bind, get. rewrite (commitClear_idle fatalError debugLexer s B).
  destruct (simpleCommit_sends
              (mkTok StringLiteral (strbuf s) 0%float
                 (mkPos (strbufStartLine s) (strbufStartCol s))) s)
    as (s1 & -> & T & K & B1 & R & _).
  eexists. split; [reflexivity|]. lexer_simpl. rewrite T, K, B1, R. auto.
Qed.

Lemma final_flush s k :
  buf s = [] -> lastKind s = k -> quiet k = false ->
  exists s',
    ensureSeparator fatalError debugLexer s = Ok tt s' /\
    tokens s' = tokens s ++ [charTok Separator (cursor s)].
Proof.
  intros B K Q. unfold ensureSeparator, bind.
  rewrite (commitClear_idle fatalError debugLexer s B). unfold get. rewrite K.
  assert (E : commitChar fatalError debugLexer Separator s =
              simpleCommit debugLexer (charTok Separator (cursor s)) s).
  { unfold commitChar, commit, bind, get.
    rewrite (commitClear_idle fatalError debugLexer s B). reflexivity. }
  destruct (simpleCommit_sends (charTok Separator (cursor s)) s)
    as (s1 & E1 & T & _).
  exists s1. split; [|exact T].
  destruct k; first [discriminate Q | rewrite E; exact E1].
Qed.

(** A string literal alone.  For every body that can stand between two
    quotes, Tokenize on quote, body, quote returns after sending one
    StringLiteral that carries the body with its escapes resolved and is
    placed at the opening quote, and the Separator of the final flush. *)
Theorem string_literal_alone body :
  closedBody body = true ->
  exists s p,
    Tokenize fatalError debugLexer (rn "'" :: body ++ [rn "'"]) = Ok tt s /\
    tokens s = [mkTok StringLiteral (unescape body) 0%float (mkPos 1 1);
                charTok Separator p].
Proof.
  intros Hc. rewrite Tokenize_run.
  set (input := rn "'" :: body ++ [rn "'"]).
  assert (E0 : skipShebang (initial input) = Ok tt (initial input)).
  { unfold skipShebang, bind, get, input. cbn [initial buffered pending firstn].
    destruct (body ++ [rn "'"]); reflexivity. }
  rewrite E0.
  rewrite (run_cons _ _ _ (initial input) (rn "'") (body ++ [rn "'"]) eq_refl).
  rewrite dispatch_open by reflexivity.
  unfold input. cbn [List.length]. rewrite length_app. cbn [List.length].
  replace (S (List.length body + 1)) with (List.length body + 2)%nat by lia.
  match goal with |- context [run _ _ _ ?x] => set (s1 := x) end.
  destruct (scan_body (List.length body) body (le_n _) 2 s1 [rn "'"] Hc eq_refl eq_refl)
    as (fuel' & s2 & E & L & (S1 & S2 & S3 & S4 & S5 & S6 & S7) & T & P).
  rewrite E. destruct fuel' as [|[|fuel']]; [lia|lia|].
  rewrite (run_cons _ _ _ s2 (rn "'") [] P).
  destruct (dispatch_close (set_buffered (mkReader [] (Some (rn "'"))) s2))
    as (s3 & -> & T3 & K3 & B3 & R3); [exact S5|exact S1|].
  rewrite run_nil by (lexer_simpl; rewrite R3; reflexivity).
  match goal with |- context [ensureSeparator _ _ ?x] => set (s4 := x) end.
  destruct (final_flush s4 StringLiteral) as (s5 & -> & T5);
    [exact B3|exact K3|reflexivity|].
  exists s5, (cursor s4). split; [reflexivity|].
  rewrite T5. subst s4. lexer_simpl. rewrite T3. lexer_simpl.
  rewrite S6, T, S2, S3. reflexivity.
Qed.

End Literals.

Lemma string_literal_alone_run :
  exists s p,
    @Tokenize decimalLibrary false false
      (rn "'" :: runes "a\'b" ++ [rn "'"]) = Ok tt s /\
    tokens s = [mkTok StringLiteral (unescape (runes "a\'b")) 0%float (mkPos 1 1);
                charTok Separator p].
Proof.
  apply (@string_literal_alone decimalLibrary false false (runes "a\'b")).
  reflexivity.
Defined.

(** ** Words *)

Section Words.
Context {go : GoLibrary}.
Variables fatalError debugLexer : bool.

Local Abbreviation Run := (run fatalError debugLexer).

(** The runes that fall through every case of the switch to its default,
    which appends them to [buf]. *)
Definition letter (c : rune) : bool :=
  negb (reserved c) && negb (c =? rn ".") && negb (IsSpace c).

Lemma dispatch_letter c s :
  inStringLiteral s = false -> letter c = true ->
  dispatch fatalError debugLexer c s =
  Ok tt (set_buf (buf s ++ string_of_rune c) s).
Proof.
  intros Hin L. unfold letter in L.
  apply andb_prop in L. destruct L as [L Hs].
  apply andb_prop in L. destruct L as [Hr Hd].
  apply negb_true_iff in Hs, Hd, Hr.
  unfold reserved in Hr. rewrite !orb_false_iff in Hr.
  repeat match type of Hr with _ /\ _ => destruct Hr as [Hr ?] end.
  unfold dispatch. cbn [bind get]. rewrite Hin, Hs, Hd.
  repeat match goal with
         | H : (c =? _) = false |- _ => rewrite H; clear H
         end.
  reflexivity.
Qed.

Lemma scan_word word : forall fuel s rest,
  Forall (fun c => letter c = true) word -> inStringLiteral s = false ->
  pending (buffered s) = word ++ rest ->
  exists s',
    Run (List.length word + fuel) s = Run fuel s' /\
    buf s' = buf s ++ flat_map string_of_rune word /\
    pending (buffered s') = rest /\ lastKind s' = lastKind s /\
    tokens s' = tokens s /\ inStringLiteral s' = false /\ diag s' = diag s /\
    lineNo s' = lineNo s /\
    colNo s' = Nat.iter (List.length word) (fun c => wrap (c + 1)) (colNo s).
Proof.
  induction word as [|c word IH]; intros fuel s rest Hl Hin Hp.
  - exists s. cbn. rewrite app_nil_r. repeat split; auto.
  - inversion Hl as [|? ? Hc Hl']; subst.
    cbn [List.length Nat.add app] in *.
    rewrite (run_cons _ _ _ s _ _ Hp).
    rewrite (dispatch_letter c); [|exact Hin|exact Hc].
    match goal with |- context [run _ _ _ ?x] => set (s1 := x) end.
    destruct (IH fuel s1 rest Hl' Hin eq_refl)
      as (s2 & E & B & P & K & T & I & D & L & C).
    exists s2. split; [exact E|]. subst s1. lexer_simpl.
    cbn [flat_map]. rewrite B, app_assoc, C, Nat.iter_succ_r.
    repeat split; auto.
Qed.

Lemma iter_col n : forall c,
  0 <= c -> c + Z.of_nat n < 2 ^ 63 ->
  Nat.iter n (fun c => wrap (c + 1)) c = c + Z.of_nat n.
Proof.
  induction n as [|n IH]; intros c H0 H1; [cbn; lia|].
  rewrite Nat.iter_succ, IH by lia. rewrite wrap_small; lia.
Qed.

Lemma ensureSeparator_unfold s :
  ensureSeparator fatalError debugLexer s =
  match commitClear fatalError debugLexer s with
  | Ok _ s1 =>
    if quiet (lastKind s1) then Ok tt s1
    else commitChar fatalError debugLexer Separator s1
  | Exit s1 => Exit s1
  | OutOfFuel => OutOfFuel
  end.
Proof.
  unfold ensureSeparator, bind, get.
  destruct (commitClear fatalError debugLexer s) as [[] s1|s1|]; try reflexivity.
  destruct (lastKind s1); reflexivity.
Qed.

Lemma commitClear_identifier s :
  buf s <> [] -> gostring_eqb (buf s) (runes "true") = false ->
  gostring_eqb (buf s) (runes "false") = false ->
  IsDigit (index0 (buf s)) = false ->
  exists s',
    commitClear fatalError debugLexer s = Ok tt s' /\
    tokens s' =
    tokens s ++ [mkTok Identifier (buf s) 0%float
                   (mkPos (lineNo s) (wrap (colNo s - len (buf s))))] /\
    lastKind s' = Identifier /\ buf s' = [] /\ cursor s' = cursor s.
Proof.
  intros B E1 E2 E3. unfold commitClear, bind, get.
  destruct (buf s) as [|c0 cb] eqn:Hb; [contradiction|].
  rewrite E1, E2, E3. unfold modify.
  destruct (simpleCommit_sends debugLexer
              (mkTok Identifier (c0 :: cb) 0%float
                 (mkPos (lineNo s) (wrap (colNo s - len (c0 :: cb)))))
              (set_buf [] s)) as (s1 & E & T & K & B1 & _ & C & _).
  exists s1. lexer_simpl. repeat split; auto.
Qed.

(** A word alone.  When the runes of the input all fall to the default case
    of the switch, the input is not a shebang line, and the text they make is
    neither [true] nor [false] and does not start with a digit, Tokenize
    returns after sending one Identifier that carries the text and the
    Separator of the final flush.  The Separator is placed one column past
    the last rune; the Identifier at that column less the number of bytes of
    the text, which is column 1 when every rune is one byte long and
    column 0 or less otherwise. *)
Theorem identifier_alone word :
  word <> [] ->
  Forall (fun c => letter c = true) word ->
  gostring_eqb (firstn 2 word) (runes "#!") = false ->
  let text := flat_map string_of_rune word in
  let n := Z.of_nat (List.length word) in
  gostring_eqb text (runes "true") = false ->
  gostring_eqb text (runes "false") = false ->
  IsDigit (index0 text) = false ->
  n + 1 < 2 ^ 63 ->
  exists s,
    Tokenize fatalError debugLexer word = Ok tt s /\
    tokens s = [mkTok Identifier text 0%float (mkPos 1 (wrap (1 + n - len text)));
                charTok Separator (mkPos 1 (1 + n))].
Proof.
  intros Hne Hl Hs text n E1 E2 E3 Hn. rewrite Tokenize_run.
  assert (E0 : skipShebang (initial word) = Ok tt (initial word)).
  { unfold skipShebang, bind, get. cbn [initial buffered pending]. rewrite Hs.
    reflexivity. }
  rewrite E0.
  replace (S (List.length word)) with (List.length word + 1)%nat by lia.
  destruct (scan_word word 1 (initial word) [] Hl eq_refl)
    as (s1 & E & B & P & K & T & I & D & L & C).
  { cbn. rewrite app_nil_r. reflexivity. }
  rewrite E, (run_nil _ _ _ s1 P), ensureSeparator_unfold.
  cbn [initial buf app] in B. fold text in B.
  cbn [initial lineNo colNo] in L, C. rewrite iter_col in C by (fold n; lia).
  fold n in C.
  set (s2 := set_buffered (mkReader [] None) s1).
  assert (B2 : buf s2 = text) by exact B.
  destruct (commitClear_identifier s2) as (s3 & -> & T3 & K3 & B3 & C3);
    try (rewrite B2; assumption).
  { rewrite B2. unfold text. destruct word as [|c word]; [contradiction|].
    cbn [flat_map]. unfold string_of_rune at 1. discriminate. }
  rewrite K3. cbn [quiet].
  assert (Ec : commitChar fatalError debugLexer Separator s3 =
               simpleCommit debugLexer (charTok Separator (cursor s3)) s3).
  { unfold commitChar, commit, bind, get.
    rewrite (commitClear_idle fatalError debugLexer s3 B3). reflexivity. }
  destruct (simpleCommit_sends debugLexer (charTok Separator (cursor s3)) s3)
    as (s4 & E4 & T4 & _).
  rewrite Ec, E4. exists s4. split; [reflexivity|].
  rewrite T4, T3, C3. subst s2. unfold cursor. lexer_simpl. rewrite T, B, L, C.
  reflexivity.
Qed.

End Words.

Lemma identifier_alone_run :
  exists s,
    @Tokenize decimalLibrary false false (runes "log") = Ok tt s /\
    tokens s = [mkTok Identifier (runes "log") 0%float (mkPos 1 1);
                charTok Separator (mkPos 1 4)].
Proof.
  apply (@identifier_alone decimalLibrary false false (runes "log"));
    first [discriminate | reflexivity | repeat constructor].
Defined.

(** ** The names of the kinds *)

Local Open Scope string_scope.

(** The value of each constant of type Kind, numbered by iota. *)
Definition code (k : Kind) : Z :=
  match k with
  | Separator => 0
  | UnaryExpr => 1 | BinaryExpr => 2 | MatchExpr => 3 | MatchClause => 4
  | Identifier => 5 | EmptyIdentifier => 6
  | FunctionCall => 7
  | NumberLiteral => 8 | StringLiteral => 9 | ObjectLiteral => 10
  | ListLiteral => 11 | FunctionLiteral => 12
  | TrueLiteral => 13 | FalseLiteral => 14
  | AccessorOp => 15
  | EqualOp => 16 | FunctionArrow => 17
  | KeyValueSeparator => 18 | DefineOp => 19 | MatchColon => 20
  | CaseArrow => 21 | SubtractOp => 22
  | NegationOp => 23 | AddOp => 24 | MultiplyOp => 25 | DivideOp => 26
  | ModulusOp => 27 | GreaterThanOp => 28 | LessThanOp => 29
  | LogicalAndOp => 30 | LogicalOrOp => 31 | LogicalXorOp => 32
  | LeftParen => 33 | RightParen => 34 | LeftBracket => 35
  | RightBracket => 36 | LeftBrace => 37 | RightBrace => 38
  end.

Definition kinds : list Kind :=
  [Separator; UnaryExpr; BinaryExpr; MatchExpr; MatchClause;
   Identifier; EmptyIdentifier; FunctionCall;
   NumberLiteral; StringLiteral; ObjectLiteral; ListLiteral; FunctionLiteral;
   TrueLiteral; FalseLiteral; AccessorOp; EqualOp; FunctionArrow;
   KeyValueSeparator; DefineOp; MatchColon; CaseArrow; SubtractOp;
   NegationOp; AddOp; MultiplyOp; DivideOp; ModulusOp;
   GreaterThanOp; LessThanOp; LogicalAndOp; LogicalOrOp; LogicalXorOp;
   LeftParen; RightParen; LeftBracket; RightBracket; LeftBrace; RightBrace].

(** The constant that an int of type Kind equals, if any. *)
Definition kindOf (z : Z) : option Kind :=
  find (fun k => (code k =? z)%Z) kinds.

(** [Kind.String], on any value of the int type. *)
Definition KindString (z : Z) : string :=
  match kindOf z with
  | Some UnaryExpr => "unary expression"
  | Some BinaryExpr => "binary expression"
  | Some MatchExpr => "match expression"
  | Some MatchClause => "match clause"
  | Some Identifier => "identifier"
  | Some EmptyIdentifier => "'_'"
  | Some FunctionCall => "function call"
  | Some NumberLiteral => "number literal"
  | Some StringLiteral => "string literal"
  | Some ObjectLiteral => "composite literal"
  | Some ListLiteral => "list composite literal"
  | Some FunctionLiteral => "function literal"
  | Some TrueLiteral => "'true'"
  | Some FalseLiteral => "'false'"
  | Some AccessorOp => "'.'"
  | Some EqualOp => "'='"
  | Some FunctionArrow => "'=>'"
  | Some KeyValueSeparator => "':'"
  | Some DefineOp => "':='"
  | Some MatchColon => "'::'"
  | Some CaseArrow => "'->'"
  | Some SubtractOp => "'-'"
  | Some NegationOp => "'~'"
  | Some AddOp => "'+'"
  | Some MultiplyOp => "'*'"
  | Some DivideOp => "'/'"
  | Some ModulusOp => "'%'"
  | Some GreaterThanOp => "'>'"
  | Some LessThanOp => "'<'"
  | Some LogicalAndOp => "'&'"
  | Some LogicalOrOp => "'|'"
  | Some LogicalXorOp => "'^'"
  | Some Separator => "','"
  | Some LeftParen => "'('"
  | Some RightParen => "')'"
  | Some LeftBracket => "'['"
  | Some RightBracket => "']'"
  | Some LeftBrace => "'{'"
  | Some RightBrace => "'}'"
  | None => "unknown token"
  end.

(** The text between the quotes of a name that is written in quotes. *)
Fixpoint beforeQuote (s : string) : option string :=
  match s with
  | EmptyString => None
  | String c rest =>
    match rest with
    | EmptyString => if Ascii.eqb c "'" then Some EmptyString else None
    | _ => option_map (String c) (beforeQuote rest)
    end
  end.

Definition spelling (name : string) : option string :=
  match name with
  | String c rest => if Ascii.eqb c "'" then beforeQuote rest else None
  | EmptyString => None
  end.

Local Close Scope string_scope.

Lemma kindOf_code k : kindOf (code k) = Some k.
Proof. destruct k; reflexivity. Qed.

Lemma kindOf_range z : kindOf z = None <-> (z < 0 \/ 38 < z).
Proof.
  split.
  - intros H.
    destruct (Z.ltb_spec z 0) as [|L]; [auto|].
    destruct (Z.ltb_spec 38 z) as [|U]; [auto|].
    exfalso.
    assert (I : In (Z.to_nat z) (seq 0 39)) by (apply in_seq; lia).
    assert (F : forallb (fun n => match kindOf (Z.of_nat n) with Some _ => true | None => false end)
                  (seq 0 39) = true) by (vm_compute; reflexivity).
    rewrite forallb_forall in F. specialize (F _ I).
    rewrite Z2Nat.id in F by lia. rewrite H in F. discriminate.
  - intros H. unfold kindOf.
    destruct (find (fun k => code k =? z) kinds) as [k|] eqn:E; [|reflexivity].
    apply find_some in E. destruct E as [_ E]. apply Z.eqb_eq in E.
    destruct k; cbn in E; lia.
Qed.

(** [Kind.String] gives every declared kind a name of its own, and the
    text of its default case to the ints that are no declared kind, which
    are those below 0 and above 38, and to no other. *)
Theorem kind_names :
  (forall k1 k2, KindString (code k1) = KindString (code k2) -> k1 = k2) /\
  (forall z, KindString z = "unknown token"%string <-> (z < 0 \/ 38 < z)).
Proof.
  split.
  - intros k1 k2 H.
    assert (P : forall k, find (fun k' => String.eqb (KindString (code k')) (KindString (code k))) kinds = Some k)
      by (intros k; destruct k; reflexivity).
    pose proof (P k1) as P1. rewrite H, P in P1. congruence.
  - intros z. rewrite <- kindOf_range. unfold KindString.
    destruct (kindOf z) as [k|]; [|tauto].
    split; [destruct k; discriminate|discriminate].
Qed.

(** Reading back a name.  Every kind whose name is written in quotes is the
    kind of the first token that Tokenize sends for the text between the
    quotes followed by a blank. *)
Theorem spelled_kind_round_trip {go : GoLibrary} (fatalError debugLexer : bool) k x :
  spelling (KindString (code k)) = Some x ->
  exists s t rest,
    Tokenize fatalError debugLexer (runes x ++ [rn " "]) = Ok tt s /\
    tokens s = t :: rest /\ kind t = k.
Proof.
  intros H.
  destruct k; vm_compute in H; try discriminate H; injection H as <-;
    destruct fatalError, debugLexer;
    (eexists _, _, _; split; [vm_compute; reflexivity|split; reflexivity]).
Qed.

Lemma spelled_kind_round_trip_run :
  exists s t rest,
    @Tokenize decimalLibrary false false (runes ":=" ++ [rn " "]) = Ok tt s /\
    tokens s = t :: rest /\ kind t = DefineOp.
Proof.
  apply (@spelled_kind_round_trip decimalLibrary false false DefineOp ":=").
  reflexivity.
Defined.

(** ** Operators of one and two runes *)

(** The kind of the operator made of [c] and the rune after it. *)
Definition twoRunes (c n : rune) : option Kind :=
  if c =? rn ":" then
    if n =? rn "=" then Some DefineOp
    else if n =? rn ":" then Some MatchColon else None
  else if c =? rn "=" then
    if n =? rn ">" then Some FunctionArrow else None
  else if c =? rn "-" then
    if n =? rn ">" then Some CaseArrow else None
  else None.

(** The kind of the operator [c] when the rune after it does not belong
    to it. *)
Definition oneRune (c : rune) : option Kind :=
  if c =? rn ":" then Some KeyValueSeparator
  else if c =? rn "=" then Some EqualOp
  else if c =? rn "-" then Some SubtractOp
  else None.

Ltac split_last X :=
  lazymatch X with
  | ?a ++ [?t] => constr:(a)
  | ?a ++ ?b => let b' := split_last b in constr:(a ++ b')
  end.

Ltac look_done :=
  leaf; unfold cursor in *; leaf; try exact I;
  rewrite <- ?app_assoc;
  (split; [|repeat split; reflexivity]);
  match goal with
  | |- exists more, ?pre ++ ?X = _ => let m := split_last X in exists m
  end;
  rewrite <- ?app_assoc; reflexivity.

Section Lookahead.
Context {go : GoLibrary}.
Variables fatalError debugLexer : bool.

(** The rounds that look one rune ahead.  After a colon, an equals sign or a
    minus sign outside a string literal the next rune [n] is read and
    [colNo] is advanced for it before the token is sent, so the operator is
    placed one column after its first rune.  When [n] completes a two-rune
    operator it is used up; otherwise the one-rune kind is sent and [n] is
    pushed back, to be read, and counted, again by the next round. *)
Theorem lookahead_round c n rest s :
  inStringLiteral s = false -> pending (buffered s) = n :: rest ->
  oneRune c <> None ->
  let k := match twoRunes c n with
           | Some k2 => k2
           | None => match oneRune c with Some k1 => k1 | None => Separator end
           end in
  wp (dispatch fatalError debugLexer c)
     (fun _ s' =>
        (exists more,
           tokens s' =
           tokens s ++ more ++ [charTok k (mkPos (lineNo s) (wrap (colNo s + 1)))]) /\
        lineNo s' = lineNo s /\ colNo s' = wrap (colNo s + 1) /\
        pending (buffered s') =
        match twoRunes c n with Some _ => rest | None => n :: rest end)
     (fun _ => True) s.
Proof.
  intros Hin Hp Hc k.
  assert (Hr : forall (m : option rune -> M unit) Q,
     wp (m (Some n)) Q (fun _ => True) (set_buffered (mkReader rest (Some n)) s) ->
     wp (r <- ReadRune ;; m r) Q (fun _ => True) s).
  { intros m Q H. apply wp_bind. unfold wp at 1, ReadRune. rewrite Hp. exact H. }
  unfold oneRune in Hc. subst k. unfold twoRunes, oneRune.
  unfold dispatch. apply wp_get. rewrite Hin.
  destruct (c =? rn ":") eqn:E1; [|destruct (c =? rn "=") eqn:E2;
    [|destruct (c =? rn "-") eqn:E3; [|contradiction]]].
  - apply Z.eqb_eq in E1. subst c. decide_tests. apply Hr.
    unfold incColNo. wp_pure.
    destruct (n =? rn "="); [|destruct (n =? rn ":")]; wp_walk; look_done.
  - apply Z.eqb_eq in E2. subst c. decide_tests. apply Hr.
    unfold incColNo. wp_pure.
    destruct (n =? rn ">"); wp_walk; look_done.
  - apply Z.eqb_eq in E3. subst c. decide_tests. apply Hr.
    unfold incColNo. wp_pure.
    destruct (n =? rn ">"); wp_walk; look_done.
Qed.

End Lookahead.

(** A state in which the main loop has just read the equals sign of [a=1]. *)
Definition afterEquals : lexer :=
  mkLexer (runes "a") [] 0 0 Separator 1 2 false
    (mkReader (runes "1") (Some (rn "="))) [] [].

Lemma lookahead_round_run :
  wp (@dispatch decimalLibrary false false (rn "="))
     (fun _ s' =>
        (exists more,
           tokens s' = tokens afterEquals ++ more ++ [charTok EqualOp (mkPos 1 3)]) /\
        lineNo s' = 1 /\ colNo s' = 3 /\ pending (buffered s') = runes "1")
     (fun _ => True) afterEquals.
Proof.
  apply (@lookahead_round decimalLibrary false false (rn "=") (rn "1") [] afterEquals);
    [reflexivity|reflexivity|discriminate].
Defined.

(** ** Numbers *)

Section Numbers.
Context {go : GoLibrary}.
Variables fatalError debugLexer : bool.

Lemma commitClear_number s f :
  IsDigit (index0 (buf s)) = true -> ParseFloat (buf s) = (f, None) ->
  exists s',
    commitClear fatalError debugLexer s = Ok tt s' /\
    tokens s' =
    tokens s ++ [mkTok NumberLiteral [] f
                   (mkPos (lineNo s) (wrap (colNo s - len (buf s))))] /\
    lastKind s' = NumberLiteral /\ buf s' = [] /\ cursor s' = cursor s /\
    diag s' = diag s ++ (if debugLexer
                         then [EvDebug (mkTok NumberLiteral [] f
                                 (mkPos (lineNo s) (wrap (colNo s - len (buf s)))))]
                         else []).
Proof.
  intros Hd Hp. unfold commitClear, bind, get.
  destruct (buf s) as [|c0 cb] eqn:Hb; [vm_compute in Hd; discriminate|].
  destruct (gostring_eqb (c0 :: cb) (runes "true")) eqn:E1;
    [apply gostring_eqb_eq in E1; rewrite E1 in Hd; vm_compute in Hd; discriminate|].
  destruct (gostring_eqb (c0 :: cb) (runes "false")) eqn:E2;
    [apply gostring_eqb_eq in E2; rewrite E2 in Hd; vm_compute in Hd; discriminate|].
  rewrite Hd, Hp. unfold modify, ret, simpleCommit, bind, modify, LogDebug, ret.
  destruct debugLexer; eexists; (split; [reflexivity|]); lexer_simpl;
    rewrite ?app_nil_r; repeat split.
Qed.

(** A number alone.  When the runes of the input all fall to the default
    case of the switch (as digits do, but not the dot), the text they make
    starts with a digit and strconv.ParseFloat accepts it, Tokenize returns
    after sending one NumberLiteral that carries the parsed value and no
    text, and the Separator of the final flush, and reports no error. *)
Theorem number_alone word f :
  Forall (fun c => letter c = true) word ->
  let text := flat_map string_of_rune word in
  let n := Z.of_nat (List.length word) in
  IsDigit (index0 text) = true ->
  ParseFloat text = (f, None) ->
  n + 1 < 2 ^ 63 ->
  exists s,
    Tokenize fatalError debugLexer word = Ok tt s /\
    tokens s = [mkTok NumberLiteral [] f (mkPos 1 (wrap (1 + n - len text)));
                charTok Separator (mkPos 1 (1 + n))] /\
    Forall (fun ev => isDebug ev = true) (diag s).
Proof.
  intros Hl text n Hd Hp Hn. rewrite Tokenize_run.
  assert (E0 : skipShebang (initial word) = Ok tt (initial word)).
  { unfold skipShebang, bind, get. cbn [initial buffered pending].
    destruct (gostring_eqb (firstn 2 word) (runes "#!")) eqn:Hs; [|reflexivity].
    apply gostring_eqb_eq in Hs. exfalso.
    destruct word as [|c1 [|c2 word]]; try discriminate Hs.
    cbn [firstn] in Hs. injection Hs as -> ->.
    vm_compute in Hd. discriminate. }
  rewrite E0.
  replace (S (List.length word)) with (List.length word + 1)%nat by lia.
  destruct (scan_word fatalError debugLexer word 1 (initial word) [] Hl eq_refl)
    as (s1 & E & B & P & K & T & I & D & L & C).
  { cbn. rewrite app_nil_r. reflexivity. }
  rewrite E, (run_nil _ _ _ s1 P), ensureSeparator_unfold.
  cbn [initial buf app] in B. fold text in B.
  cbn [initial lineNo colNo] in L, C. rewrite iter_col in C by (fold n; lia).
  fold n in C.
  set (s2 := set_buffered (mkReader [] None) s1).
  assert (B2 : buf s2 = text) by exact B.
  destruct (commitClear_number s2 f) as (s3 & -> & T3 & K3 & B3 & C3 & D3);
    try (rewrite B2; assumption).
  rewrite K3. cbn [quiet].
  assert (Ec : commitChar fatalError debugLexer Separator s3 =
               simpleCommit debugLexer (charTok Separator (cursor s3)) s3).
  { unfold commitChar, commit, bind, get.
    rewrite (commitClear_idle fatalError debugLexer s3 B3). reflexivity. }
  destruct (simpleCommit_sends debugLexer (charTok Separator (cursor s3)) s3)
    as (s4 & E4 & T4 & _ & _ & _ & _ & D4).
  rewrite Ec, E4. exists s4. split; [reflexivity|].
  rewrite T4, T3, D4, D3, C3. subst s2. unfold cursor. lexer_simpl.
  rewrite T, D, B, L, C. cbn [initial tokens diag app].
  split; [reflexivity|].
  destruct debugLexer; repeat constructor.
Qed.

End Numbers.

Lemma number_alone_run :
  exists s,
    @Tokenize decimalLibrary false false (runes "42") = Ok tt s /\
    tokens s = [mkTok NumberLiteral [] 42%float (mkPos 1 1);
                charTok Separator (mkPos 1 3)] /\
    Forall (fun ev => isDebug ev = true) (diag s).
Proof.
  apply (@number_alone decimalLibrary false false (runes "42") 42%float);
    first [reflexivity | repeat constructor].
Defined.

(** ** Separators after the kinds that continue an expression *)

(** Number of places in [toks] where a Separator directly follows a token
    after which [ensureSeparator] sends nothing, the token before [toks]
    being of kind [k]. *)
Fixpoint heldAfter (k : Kind) (toks : list Tok) : nat :=
  match toks with
  | [] => 0%nat
  | t :: rest =>
    ((if quiet k && isSeparator (kind t) then 1 else 0)
     + heldAfter (kind t) rest)%nat
  end.

Definition held (toks : list Tok) : nat :=
  match toks with
  | [] => 0%nat
  | t :: rest => heldAfter (kind t) rest
  end.

Lemma heldAfter_app k a b :
  heldAfter k (a ++ b) = (heldAfter k a + heldAfter (lastKindAfter k a) b)%nat.
Proof.
  revert k. induction a as [|t a IH]; intros k; [reflexivity|].
  cbn [app heldAfter]. rewrite IH.
  unfold lastKindAfter. cbn [map]. rewrite last_cons_default. lia.
Qed.

Lemma held_app_le k a b :
  (held (a ++ b) <= held a + heldAfter (lastKindAfter k a) b)%nat.
Proof.
  destruct a as [|t a].
  - destruct b as [|u b]; cbn; lia.
  - cbn [app held]. rewrite heldAfter_app.
    unfold lastKindAfter. cbn [map]. rewrite last_cons_default. lia.
Qed.

Lemma held_adjacent toks :
  held toks = 0%nat ->
  forall i a b, nth_error toks i = Some a -> nth_error toks (S i) = Some b ->
  quiet (kind a) = true -> kind b <> Separator.
Proof.
  induction toks as [|t toks IH]; intros Hz i a b Ha Hb Ka Kb.
  - destruct i; discriminate.
  - destruct toks as [|u toks]; [destruct i; cbn in Hb; try discriminate;
                                 destruct i; discriminate|].
    cbn [held heldAfter] in Hz.
    destruct i as [|i].
    + cbn in Ha, Hb. inversion Ha; inversion Hb; subst.
      rewrite Ka, Kb in Hz. cbn in Hz. lia.
    + apply (IH (proj2 (proj1 (Nat.eq_add_0 _ _) Hz)) i a b); auto.
Qed.

Section Continuation.
Context {go : GoLibrary}.
Variables fatalError debugLexer : bool.

Lemma held_flushed k s : heldAfter k (flushed s) = 0%nat.
Proof.
  unfold flushed. destruct (buf s); [reflexivity|].
  cbn. destruct (bufTok_kind s) as [-> _]. rewrite andb_false_r. reflexivity.
Qed.

Lemma held_flushed_tok k s t :
  (heldAfter k (flushed s ++ [t]) <= if isSeparator (kind t) then 1 else 0)%nat.
Proof.
  rewrite heldAfter_app, held_flushed. unfold flushed, lastKindAfter.
  destruct (buf s); cbn.
  - destruct (quiet k), (isSeparator (kind t)); cbn; lia.
  - destruct (bufTok_kind s) as [_ ->]. cbn. destruct (isSeparator (kind t)); lia.
Qed.

Lemma held_ensure s :
  heldAfter (lastKind s) (flushed s ++ synthesized s) = 0%nat.
Proof.
  rewrite heldAfter_app, held_flushed. unfold synthesized.
  destruct (quiet (lastKindAfter (lastKind s) (flushed s))) eqn:Q; [reflexivity|].
  cbn. rewrite Q. reflexivity.
Qed.

(** [lastKind] is the kind of the last token sent, and at most [n]
    Separators directly follow a token of a quiet kind. *)
Definition Held (n : nat) (s : lexer) : Prop :=
  lastKind s = lastKindAfter Separator (tokens s) /\ (held (tokens s) <= n)%nat.

Lemma Held_mono n m s : (n <= m)%nat -> Held n s -> Held m s.
Proof. unfold Held. intros L (A & B). split; auto. lia. Qed.

Lemma Held_sends n d a b toks :
  Held n a -> sends fatalError debugLexer a b toks ->
  (heldAfter (lastKind a) toks <= d)%nat -> Held (n + d) b.
Proof.
  intros (I & P) (_ & T & K & _) Hd. unfold Held.
  rewrite T, K, I. split; [symmetry; apply lastKindAfter_app|].
  pose proof (held_app_le Separator (tokens a) toks) as Hle.
  rewrite <- I in Hle. lia.
Qed.

Lemma Held_unchanged n a b : Held n a -> unchanged a b -> Held n b.
Proof.
  intros (I & P) (_ & _ & _ & _ & K & _ & T & _). unfold Held.
  rewrite K, T. auto.
Qed.

Ltac held_step :=
  match goal with
  | H : sends _ _ ?a ?b (flushed ?s0 ++ synthesized ?s0), G : Held ?n _ |- _ =>
    let G' := fresh "G" in
    pose proof (Held_sends n _ a b _ G H (Nat.eq_le_incl _ _ (held_ensure s0))) as G';
    clear H
  | H : sends _ _ ?a ?b (flushed ?s0 ++ [?t]), G : Held ?n _ |- _ =>
    let G' := fresh "G" in
    pose proof (Held_sends n _ a b _ G H (held_flushed_tok (lastKind a) s0 t)) as G';
    clear H
  | H : sends _ _ ?a ?b (flushed ?s0), G : Held ?n _ |- _ =>
    let G' := fresh "G" in
    pose proof (Held_sends n _ a b _ G H
                  (Nat.eq_le_incl _ _ (held_flushed (lastKind a) s0))) as G';
    clear H
  | H : sends _ _ ?a ?b [], G : Held ?n _ |- _ =>
    let G' := fresh "G" in
    pose proof (Held_sends n 0 a b [] G H (le_n 0)) as G';
    clear H
  | H : unchanged ?a ?b, G : Held ?n _ |- _ =>
    let G' := fresh "G" in
    pose proof (Held_unchanged n a b G H) as G';
    clear H
  end.

Ltac held_leaf :=
  repeat held_step;
  try match goal with
      | |- context [match lastRune ?r with Some _ => _ | None => _ end] =>
        destruct (lastRune r)
      end;
  match goal with
  | G : Held ?n _ |- Held ?m _ =>
    apply (Held_mono n m); [|exact G]
  end;
  cbn [kind charTok isSeparator];
  repeat match goal with
         | H : ?b = _ |- context [if ?b then _ else _] => rewrite H
         end;
  repeat match goal with
         | |- context [if ?b then _ else _] => destruct b
         end;
  lia.

Lemma dispatch_held n char s :
  Held n s ->
  wp (dispatch fatalError debugLexer char)
     (fun _ s' => Held (n + if (char =? rn ",")%Z then 1 else 0) s')
     (fun s' => Held (n + if (char =? rn ",")%Z then 1 else 0) s') s.
Proof.
  intros G0. dispatch_walk.
  all: held_leaf.
Qed.

Definition Owed (unbuffered : list rune) (s : lexer) : Prop :=
  exists n, Held n s /\
    (n + commas (pending (buffered s)) <= commas unbuffered)%nat.

Lemma round_held unbuffered s c rest :
  Owed unbuffered s -> pending (buffered s) = c :: rest ->
  wp (dispatch fatalError debugLexer c ;; incColNo)
     (fun _ s' => Owed unbuffered s' /\
        (List.length (pending (buffered s')) <= List.length rest)%nat)
     (Owed unbuffered) (set_buffered (mkReader rest (Some c)) s).
Proof.
  intros (n & G & L) Hp. rewrite Hp, commas_cons in L.
  eapply wp_call.
  - apply wp_and; [apply (dispatch_held n c); exact G|apply dispatch_progress].
  - intros ? s1 [G1 S1]. lexer_simpl. unfold incColNo. wp_pure. lexer_simpl.
    pose proof (commas_suffix _ _ S1). pose proof (suffix_length _ _ S1).
    split; [|lia]. exists (n + if (c =? rn ",")%Z then 1 else 0)%nat.
    split; [exact G1|]. lexer_simpl. lia.
  - intros s1 [G1 S1]. lexer_simpl.
    pose proof (commas_suffix _ _ S1).
    exists (n + if (c =? rn ",")%Z then 1 else 0)%nat. split; [exact G1|lia].
Qed.

Lemma Tokenize_held unbuffered :
  wp (skipShebang ;;
      mainLoop fatalError debugLexer (S (List.length unbuffered)) ;;
      ensureSeparator fatalError debugLexer)
     (fun _ s => Held (commas unbuffered) s)
     (fun s => Held (commas unbuffered) s)
     (initial unbuffered).
Proof.
  assert (X : forall s, Owed unbuffered s -> Held (commas unbuffered) s).
  { intros s (n & G & L). apply (Held_mono n); [lia|exact G]. }
  eapply wp_call; [apply skipShebang_spec| |intros ? []].
  intros ? s1 [U1 S1].
  assert (P1 : Owed unbuffered s1).
  { cbn in S1. pose proof (commas_suffix _ _ S1).
    exists 0%nat. split; [|lia].
    apply (Held_unchanged 0 (initial unbuffered)); [|exact U1].
    split; [reflexivity|]. cbn. lia. }
  apply suffix_length in S1. cbn in S1.
  eapply wp_call;
    [apply (mainLoop_rule fatalError debugLexer (Owed unbuffered) (Owed unbuffered))
    | |exact X].
  - intros s c rest. apply round_held.
  - exact P1.
  - lia.
  - intros ? s2 (s0 & (n & G & L) & _ & ->).
    eapply wp_conseq; [apply ensureSeparator_spec| |].
    + intros ? s3 [H3 _]. apply (Held_mono (n + 0)); [lia|].
      apply (Held_sends n 0 (set_buffered (mkReader [] None) s0) s3 _ G H3).
      apply Nat.eq_le_incl, held_ensure.
    + intros s3 (H3 & _). apply (Held_mono (n + 0)); [lia|].
      apply (Held_sends n 0 (set_buffered (mkReader [] None) s0) s3 _ G H3).
      apply le_n.
Qed.

(** What [ensureSeparator] is for.  In the stream of any input the number
    of places where a Separator directly follows a token of a kind that
    continues an expression (an opening bracket, an operator, a Separator:
    the kinds of the switch in [ensureSeparator]) is at most the number of
    commas of the input; without a comma there is no such place. *)
Theorem no_separator_after_continuation unbuffered :
  exists toks,
    emitted (Tokenize fatalError debugLexer unbuffered) = Some toks /\
    (held toks <= commas unbuffered)%nat /\
    (commas unbuffered = 0%nat ->
     forall i a b, nth_error toks i = Some a -> nth_error toks (S i) = Some b ->
     quiet (kind a) = true -> kind b <> Separator).
Proof.
  pose proof (Tokenize_held unbuffered) as H. unfold wp in H.
  unfold Tokenize.
  destruct ((skipShebang;;
             mainLoop fatalError debugLexer (S (List.length unbuffered));;
             ensureSeparator fatalError debugLexer) (initial unbuffered))
    as [a s|s|]; [| |contradiction];
    (exists (tokens s); destruct H as (_ & P);
     split; [reflexivity|split; [exact P|]];
     intros Z; apply held_adjacent; lia).
Qed.

End Continuation.

(** ** A literal that is not closed *)

Section Unterminated.
Context {go : GoLibrary}.
Variables fatalError debugLexer : bool.

(** A string literal that is not closed.  When the input is a quote and a
    body that holds no closing quote, Tokenize returns without a token and
    without a log entry: the text gathered in [strbuf] is dropped and nothing
    reports it. *)
Theorem unterminated_string_is_dropped body :
  closedBody body = true ->
  exists s,
    Tokenize fatalError debugLexer (rn "'" :: body) = Ok tt s /\
    tokens s = [] /\ diag s = [] /\
    inStringLiteral s = true /\ strbuf s = unescape body.
Proof.
  intros Hc. rewrite Tokenize_run.
  set (input := rn "'" :: body).
  assert (E0 : skipShebang (initial input) = Ok tt (initial input)).
  { unfold skipShebang, bind, get, input. cbn [initial buffered pending firstn].
    destruct body; reflexivity. }
  rewrite E0.
  rewrite (run_cons _ _ _ (initial input) (rn "'") body eq_refl).
  rewrite dispatch_open by reflexivity.
  unfold input. cbn [List.length].
  replace (S (List.length body)) with (List.length body + 1)%nat by lia.
  match goal with |- context [run _ _ _ ?x] => set (s1 := x) end.
  destruct (scan_body fatalError debugLexer (List.length body) body (le_n _) 1 s1 [] Hc eq_refl)
    as (fuel' & s2 & E & L & (S1 & S2 & S3 & S4 & S5 & S6 & S7) & T & P).
  { subst s1. lexer_simpl. rewrite app_nil_r. reflexivity. }
  rewrite E. destruct fuel' as [|fuel']; [lia|].
  rewrite (run_nil _ _ _ s2 P).
  rewrite ensureSeparator_idle.
  - eexists. split; [reflexivity|]. lexer_simpl. rewrite S6, S7, S5, T.
    subst s1. lexer_simpl. repeat split; reflexivity.
  - exact S1.
  - lexer_simpl. rewrite S4. reflexivity.
Qed.

End Unterminated.

Lemma unterminated_string_is_dropped_run :
  exists s,
    @Tokenize decimalLibrary false false (rn "'" :: runes "a + b") = Ok tt s /\
    tokens s = [] /\ diag s = [] /\
    inStringLiteral s = true /\ strbuf s = unescape (runes "a + b").
Proof.
  apply (@unterminated_string_is_dropped decimalLibrary false false (runes "a + b")).
  reflexivity.
Defined.

(** ** Decimal numbers *)

Definition asciiDigit (c : rune) : bool := (rn "0" <=? c) && (c <=? rn "9").

Section Decimals.
Context {go : GoLibrary}.
Variables fatalError debugLexer : bool.

Lemma asciiDigit_letter c : asciiDigit c = true -> letter c = true.
Proof.
  unfold asciiDigit. intros H. apply andb_prop in H. destruct H as [L U].
  apply Z.leb_le in L, U. change (rn "0") with 48 in L. change (rn "9") with 57 in U.
  assert (D : c = 48 \/ c = 49 \/ c = 50 \/ c = 51 \/ c = 52 \/ c = 53 \/
              c = 54 \/ c = 55 \/ c = 56 \/ c = 57) by lia.
  repeat (destruct D as [->|D]; [reflexivity|]). subst c. reflexivity.
Qed.

Lemma asciiDigit_text ds :
  Forall (fun c => asciiDigit c = true) ds ->
  flat_map string_of_rune ds = ds /\
  existsb (fun d => negb (IsDigit d)) ds = false.
Proof.
  induction 1 as [|c ds Hc _ [IH1 IH2]]; [split; reflexivity|].
  unfold asciiDigit in Hc. apply andb_prop in Hc. destruct Hc as [L U].
  apply Z.leb_le in L, U. change (rn "0") with 48 in L. change (rn "9") with 57 in U.
  assert (D : c = 48 \/ c = 49 \/ c = 50 \/ c = 51 \/ c = 52 \/ c = 53 \/
              c = 54 \/ c = 55 \/ c = 56 \/ c = 57) by lia.
  cbn [flat_map existsb]. rewrite IH1, IH2.
  repeat (destruct D as [->|D]; [split; reflexivity|]). subst c. split; reflexivity.
Qed.

Lemma len_ascii l :
  Forall (fun c => 0 <= c <= 127) l -> len l = Z.of_nat (List.length l).
Proof.
  unfold len, bytes. intros H. f_equal.
  induction H as [|c l Hc _ IH]; [reflexivity|].
  cbn [flat_map]. rewrite length_app, IH. unfold EncodeRune.
  destruct (Z.leb_spec 0 c); [|lia]. destruct (Z.leb_spec c 127); [|lia].
  reflexivity.
Qed.

Lemma asciiDigit_range c : asciiDigit c = true -> 0 <= c <= 127.
Proof.
  unfold asciiDigit. intros H. apply andb_prop in H. destruct H as [L U].
  apply Z.leb_le in L, U. change (rn "0") with 48 in L. change (rn "9") with 57 in U.
  lia.
Qed.

Lemma dispatch_dot s c0 cb :
  inStringLiteral s = false -> buf s = c0 :: cb ->
  existsb (fun d => negb (IsDigit d)) (buf s) = false ->
  dispatch fatalError debugLexer (rn ".") s =
  Ok tt (set_buf ((c0 :: cb) ++ runes ".") s).
Proof.
  intros Hin Hb Hd. unfold dispatch. cbn [bind get]. rewrite Hin.
  decide_tests. unfold bind, get, modify. rewrite Hd, Hb. cbv beta iota.
  rewrite Hb. reflexivity.
Qed.

(** A decimal number alone.  For ASCII digits [whole] (at least one) and
    [frac], when strconv.ParseFloat accepts the text whole, dot, frac,
    Tokenize returns after sending one NumberLiteral that carries the parsed
    value, placed at 1:1, and the Separator of the final flush: the dot
    after digits is taken into the number, not sent as an accessor. *)
Theorem decimal_alone whole frac f :
  whole <> [] ->
  Forall (fun c => asciiDigit c = true) whole ->
  Forall (fun c => asciiDigit c = true) frac ->
  let text := whole ++ rn "." :: frac in
  let n := Z.of_nat (List.length text) in
  ParseFloat text = (f, None) ->
  n + 1 < 2 ^ 63 ->
  exists s,
    Tokenize fatalError debugLexer text = Ok tt s /\
    tokens s = [mkTok NumberLiteral [] f (mkPos 1 1);
                charTok Separator (mkPos 1 (1 + n))] /\
    Forall (fun ev => isDebug ev = true) (diag s).
Proof.
  intros Hne Hw Hf text n Hp Hn. rewrite Tokenize_run.
  assert (Hlt : len text = n).
  { apply len_ascii. unfold text. apply Forall_app. split.
    - revert Hw. apply Forall_impl. apply asciiDigit_range.
    - constructor; [change (rn ".") with 46; lia|].
      revert Hf. apply Forall_impl. apply asciiDigit_range. }
  destruct (asciiDigit_text whole Hw) as [Tw Dw].
  destruct (asciiDigit_text frac Hf) as [Tf _].
  assert (Lw : Forall (fun c => letter c = true) whole)
    by (revert Hw; apply Forall_impl; apply asciiDigit_letter).
  assert (Lf : Forall (fun c => letter c = true) frac)
    by (revert Hf; apply Forall_impl; apply asciiDigit_letter).
  destruct whole as [|w0 whole']; [contradiction|]. set (whole := w0 :: whole') in *.
  assert (Hd : IsDigit (index0 text) = true).
  { inversion Hw as [|? ? H0 _]; subst. unfold text, whole.
    unfold asciiDigit in H0. apply andb_prop in H0. destruct H0 as [L U].
    apply Z.leb_le in L, U. change (rn "0") with 48 in L. change (rn "9") with 57 in U.
    assert (D : w0 = 48 \/ w0 = 49 \/ w0 = 50 \/ w0 = 51 \/ w0 = 52 \/ w0 = 53 \/
                w0 = 54 \/ w0 = 55 \/ w0 = 56 \/ w0 = 57) by lia.
    repeat (destruct D as [->|D]; [reflexivity|]). subst w0. reflexivity. }
  assert (E0 : skipShebang (initial text) = Ok tt (initial text)).
  { unfold skipShebang, bind, get. cbn [initial buffered pending].
    destruct (gostring_eqb (firstn 2 text) (runes "#!")) eqn:Hs; [|reflexivity].
    apply gostring_eqb_eq in Hs. exfalso. unfold text, whole in Hs, Hd.
    cbn [app firstn] in Hs.
    destruct (whole' ++ rn "." :: frac); inversion Hs; subst;
      vm_compute in Hd; discriminate. }
  rewrite E0.
  assert (Hlen : S (List.length text) =
                 (List.length whole + S (List.length frac + 1))%nat).
  { unfold text. rewrite length_app. cbn [List.length]. lia. }
  rewrite Hlen.
  destruct (scan_word fatalError debugLexer whole (S (List.length frac + 1))
              (initial text) (rn "." :: frac) Lw eq_refl eq_refl)
    as (s1 & E1 & B1 & P1 & K1 & T1 & I1 & D1 & L1 & C1).
  rewrite E1, (run_cons _ _ _ s1 _ _ P1).
  cbn [initial buf app] in B1. rewrite Tw in B1.
  rewrite (dispatch_dot _ w0 whole');
    [|exact I1|exact B1|lexer_simpl; rewrite B1; exact Dw].
  match goal with |- context [run _ _ _ ?x] => set (s2 := x) end.
  destruct (scan_word fatalError debugLexer frac 1 s2 [] Lf I1)
    as (s3 & E3 & B3 & P3 & K3 & T3 & I3 & D3 & L3 & C3).
  { subst s2. lexer_simpl. rewrite app_nil_r. reflexivity. }
  rewrite E3, (run_nil _ _ _ s3 P3), ensureSeparator_unfold.
  set (s4 := set_buffered (mkReader [] None) s3).
  assert (B4 : buf s4 = text).
  { subst s4 s2. lexer_simpl. rewrite B3. lexer_simpl. rewrite Tf.
    unfold text, whole. rewrite <- app_assoc. reflexivity. }
  destruct (commitClear_number fatalError debugLexer s4 f)
    as (s5 & -> & T5 & K5 & B5 & C5 & D5); try (rewrite B4; assumption).
  rewrite K5. cbn [quiet].
  assert (Ec : commitChar fatalError debugLexer Separator s5 =
               simpleCommit debugLexer (charTok Separator (cursor s5)) s5).
  { unfold commitChar, commit, bind, get.
    rewrite (commitClear_idle fatalError debugLexer s5 B5). reflexivity. }
  destruct (simpleCommit_sends debugLexer (charTok Separator (cursor s5)) s5)
    as (s6 & E6 & T6 & _ & _ & _ & _ & D6).
  rewrite Ec, E6. exists s6. split; [reflexivity|].
  assert (Hcol : colNo s4 = 1 + n /\ lineNo s4 = 1).
  { subst s4 s2. lexer_simpl. rewrite L3, C3. lexer_simpl. rewrite L1, C1.
    cbn [initial lineNo colNo].
    assert (Hn' : n = Z.of_nat (List.length whole) + 1 + Z.of_nat (List.length frac)).
    { unfold n, text. rewrite length_app. cbn [List.length]. lia. }
    rewrite (iter_col (List.length whole) 1) by lia.
    rewrite (wrap_small (1 + Z.of_nat (List.length whole) + 1)) by lia.
    rewrite iter_col by lia. split; [lia|reflexivity]. }
  destruct Hcol as [Hcol Hline].
  rewrite T6, T5, D6, D5, C5. unfold cursor. rewrite B4, Hcol, Hline, Hlt.
  replace (1 + n - n) with 1 by lia.
  subst s4 s2. lexer_simpl. rewrite T3, D3. lexer_simpl. rewrite T1, D1.
  cbn [initial tokens diag app].
  split; [reflexivity|].
  destruct debugLexer; repeat constructor.
Qed.

End Decimals.

Lemma decimal_alone_run :
  exists s,
    @Tokenize decimalLibrary false false (runes "3.25") = Ok tt s /\
    tokens s = [mkTok NumberLiteral [] 3.25%float (mkPos 1 1);
                charTok Separator (mkPos 1 5)] /\
    Forall (fun ev => isDebug ev = true) (diag s).
Proof.
  apply (@decimal_alone decimalLibrary false false (runes "3") (runes "25") 3.25%float);
    first [discriminate | reflexivity | repeat constructor].
Defined.
